(** * Social Media Auto-Poster: the upload queue of [main.py]

    A shallow embedding of the queue logic of [ModernSocialMediaGUI]
    (src/main.py): [add_videos], [select_video], [save_video_changes],
    [remove_video], [upload_single_video], [upload_all_videos] and
    [load_config], followed by the properties of the queue.

    Conventions of the embedding.
    - A Python [str] is a [string] whose characters are code points below
      256; only ASCII literals occur in the program text.
    - Every video is a Python dict that is shared by reference between
      [self.videos], the editor's callbacks and the upload threads.  The
      dicts live in [heap]; a reference is an index into it and dicts are
      never freed, only dropped from [self.videos].
    - A callback of the main thread is one atomic transition.  A worker
      thread is the list of calls it still has to make; one step runs one
      call.  A Tk call made by a worker may raise, which is an input of the
      step.
    - Widgets are kept as the values they hold.  Both branches on
      [CTK_AVAILABLE] hold the same values; the progress bar is kept in
      hundredths ([progress_bar.set(i / 100)] for CustomTkinter,
      [configure(value=i)] of a maximum of 100 for ttk). *)

From Stdlib Require Import String Ascii List Arith ZArith Lia DecimalString.
From stdpp Require Import base decidable option list strings.
Import ListNotations.

Local Open Scope string_scope.
Local Open Scope list_scope.
Local Open Scope nat_scope.

(** ** Python strings *)

Module PyStr.

(** [str.isspace] on one character, for code points below 256: the ASCII
    white space 0x09-0x0D, 0x1C-0x1F and 0x20, then NEL and NBSP. *)
Definition is_space (c : ascii) : bool :=
  let n := nat_of_ascii c in
  ((9 <=? n) && (n <=? 13)) || ((28 <=? n) && (n <=? 32))
  || (n =? 133) || (n =? 160).

Fixpoint lstrip (s : string) : string :=
  match s with
  | EmptyString => EmptyString
  | String c s' => if is_space c then lstrip s' else s
  end.

Fixpoint rstrip (s : string) : string :=
  match s with
  | EmptyString => EmptyString
  | String c s' =>
      match rstrip s' with
      | EmptyString => if is_space c then EmptyString else String c EmptyString
      | r => String c r
      end
  end.

(** [s.strip()] *)
Definition strip (s : string) : string := rstrip (lstrip s).

(** [s.split(sep)] for a one-character separator: never the empty list. *)
Fixpoint split (sep : ascii) (s : string) : list string :=
  match s with
  | EmptyString => [EmptyString]
  | String c s' =>
      if Ascii.eqb c sep then EmptyString :: split sep s'
      else match split sep s' with
           | [] => [String c EmptyString]
           | piece :: pieces => String c piece :: pieces
           end
  end.

(** truth value of a string in a condition *)
Definition truthy (s : string) : bool :=
  match s with EmptyString => false | String _ _ => true end.

(** [sep.join(l)] *)
Definition join (sep : string) (l : list string) : string := String.concat sep l.

(** [str(n)] for a non-negative integer *)
Definition of_nat (n : nat) : string := NilZero.string_of_uint (Nat.to_uint n).

(** [c in s] for a character *)
Fixpoint contains (c : ascii) (s : string) : bool :=
  match s with
  | EmptyString => false
  | String c' s' => Ascii.eqb c' c || contains c s'
  end.

End PyStr.

(** ** The data *)

(** A reference to a video dict: its index in the heap. *)
Abbreviation ref := nat (only parsing).

(** The dict built in [add_videos]; its nine keys never change. *)
Record Video := mkVideo {
  id : nat;
  path : string;
  name : string;
  title : string;
  description : string;
  tags : list string;
  platforms : list string;
  privacy : string;
  status : string
}.

#[global] Instance Video_eq_dec : EqDecision Video.
Proof. solve_decision. Defined.

(** [video['status'] = s] *)
Definition set_status (s : string) (v : Video) : Video :=
  mkVideo (id v) (path v) (name v) (title v) (description v) (tags v)
          (platforms v) (privacy v) s.

(** The values held by the widgets of the editor form: [title_entry],
    [desc_text], [tags_entry], the [platform_vars] dict in insertion order
    and [privacy_var]. *)
Record Form := mkForm {
  title_entry : string;
  desc_text : string;
  tags_entry : string;
  platform_vars : list (string * bool);
  privacy_var : string
}.

(** The editor panel: no form was ever built ([self.title_entry] and the
    other attributes do not exist), a form is shown, or the widgets of the
    last form were destroyed by [show_default_editor_message]. *)
Inductive editor_state :=
| NoForm
| FormShown (f : Form)
| FormDestroyed.

(** Values read by [json.load]; numbers are restricted to the integers. *)
#[local] Unset Elimination Schemes.
Inductive json :=
| JNull
| JBool (b : bool)
| JInt (n : Z)
| JStr (s : string)
| JArr (items : list json)
| JObj (members : list (string * json)).
#[local] Set Elimination Schemes.

(** Exceptions that the embedded code can meet. *)
Inductive exn :=
| ValueError
| TypeError
| AttributeError
| FileNotFoundError
| OSError
| JSONDecodeError
| UnicodeDecodeError
| RecursionError
| TclError.

(** What the outside world observes, in order. *)
Inductive event :=
| EvAskYesNo (title text : string) (answer : bool)
| EvShowInfo (title text : string)
| EvShowError (title text : string) (e : exn)   (* text is followed by str(e) *)
| EvRefresh                                     (* refresh_video_list *)
| EvProgress (hundredths : nat)
| EvIdle                                        (* root.update_idletasks *)
| EvSleep (ms : nat)
| EvThreadStart (tid : nat)
| EvOpen (file mode : string).

(** One call of a worker thread. *)
Inductive cmd :=
| CSetStatus (r : ref) (s : string)      (* video['status'] = s *)
| CRefresh                               (* self.refresh_video_list() *)
| CUpdateStatus (text : string) (r : ref) (* self.update_status(f"{text}{video['name']}") *)
| CSleep (ms : nat)                      (* time.sleep *)
| CProgress (hundredths : nat)           (* progress bar *)
| CIdle                                  (* self.root.update_idletasks() *)
| CShowUploadError (r : ref)             (* messagebox.showerror in the handler *)
| CUploadSingle (r : ref).               (* self.upload_single_video(video) *)

(** A worker thread: the calls left in the block it runs, the [except
    Exception] handler that guards them if any, and the exception caught. *)
Record thread := mkThread {
  body : list cmd;
  handler : option (list cmd);
  caught : option exn
}.

(** A Python dict of [self.credentials]: keys and values in insertion
    order.  Keys are hashable [json] values. *)
Definition pydict := list (json * json).

Record App := mkApp {
  heap : list Video;
  videos : list ref;
  current_video : option ref;
  credentials : pydict;
  editor : editor_state;
  status_label : string;
  progress_bar : nat;
  threads : list thread;
  trace : list event
}.

(** ** Field updates of the application object *)

Definition set_heap (h : list Video) (st : App) : App :=
  mkApp h (videos st) (current_video st) (credentials st) (editor st)
        (status_label st) (progress_bar st) (threads st) (trace st).

Definition set_videos (vs : list ref) (st : App) : App :=
  mkApp (heap st) vs (current_video st) (credentials st) (editor st)
        (status_label st) (progress_bar st) (threads st) (trace st).

Definition set_current_video (c : option ref) (st : App) : App :=
  mkApp (heap st) (videos st) c (credentials st) (editor st)
        (status_label st) (progress_bar st) (threads st) (trace st).

Definition set_credentials (d : pydict) (st : App) : App :=
  mkApp (heap st) (videos st) (current_video st) d (editor st)
        (status_label st) (progress_bar st) (threads st) (trace st).

Definition set_editor (e : editor_state) (st : App) : App :=
  mkApp (heap st) (videos st) (current_video st) (credentials st) e
        (status_label st) (progress_bar st) (threads st) (trace st).

Definition set_progress_bar (p : nat) (st : App) : App :=
  mkApp (heap st) (videos st) (current_video st) (credentials st) (editor st)
        (status_label st) p (threads st) (trace st).

Definition set_threads (ts : list thread) (st : App) : App :=
  mkApp (heap st) (videos st) (current_video st) (credentials st) (editor st)
        (status_label st) (progress_bar st) ts (trace st).

Definition log (e : event) (st : App) : App :=
  mkApp (heap st) (videos st) (current_video st) (credentials st) (editor st)
        (status_label st) (progress_bar st) (threads st) (trace st ++ [e]).

(** [update_status]: the label exists once [create_widgets] has run. *)
Definition update_status (message : string) (st : App) : App :=
  mkApp (heap st) (videos st) (current_video st) (credentials st) (editor st)
        message (progress_bar st) (threads st) (trace st).

Definition refresh_video_list (st : App) : App := log EvRefresh st.

Definition show_default_editor_message (st : App) : App :=
  match editor st with
  | NoForm => st
  | FormShown _ | FormDestroyed => set_editor FormDestroyed st
  end.

(** The result of a callback that may let an exception escape. *)
Inductive outcome :=
| Done (st : App)
| Raised (e : exn) (st : App).

(** Tk reports an exception that escapes a callback and the main loop goes on. *)
Definition after_callback (o : outcome) : App :=
  match o with Done st | Raised _ st => st end.

(** ** The queue *)

(** [video['status']] through a reference *)
Definition status_of (st : App) (r : ref) : option string :=
  status <$> heap st !! r.

(** [v['status'] == 'pending'] *)
Definition is_pending (st : App) (r : ref) : bool :=
  match heap st !! r with
  | Some v => String.eqb (status v) "pending"
  | None => false
  end.

(** [x in l] on a list of strings *)
Definition str_in (x : string) (l : list string) : bool :=
  existsb (String.eqb x) l.

Definition platform_ids : list string := ["youtube"; "instagram"; "tiktok"].

(** The widget values set up by [create_video_editor_form]. *)
Definition create_video_editor_form (v : Video) : Form :=
  {| title_entry := title v;
     desc_text := description v;
     tags_entry := PyStr.join ", " (tags v);
     platform_vars := map (fun p => (p, str_in p (platforms v))) platform_ids;
     privacy_var := privacy v |}.

Definition select_video (r : ref) (st : App) : App :=
  match heap st !! r with
  | Some v =>
      update_status ("Selected: " ++ name v)
        (set_editor (FormShown (create_video_editor_form v))
           (set_current_video (Some r) st))
  | None => st
  end.

(** The user types into the form that is shown. *)
Definition edit_form (f : Form) (st : App) : App :=
  match editor st with
  | FormShown _ => set_editor (FormShown f) st
  | NoForm | FormDestroyed => st
  end.

(** [[tag.strip() for tag in tags_text.split(',') if tag.strip()]] *)
Definition parse_tags (tags_text : string) : list string :=
  map PyStr.strip
      (List.filter (fun tag => PyStr.truthy (PyStr.strip tag))
                   (PyStr.split "," tags_text)).

(** [[platform for platform, var in self.platform_vars.items() if var.get()]] *)
Definition checked_platforms (vars : list (string * bool)) : list string :=
  map fst (List.filter snd vars).

(** [video.update({...})] with the five values read from the form *)
Definition video_update (f : Form) (v : Video) : Video :=
  mkVideo (id v) (path v) (name v)
          (title_entry f) (desc_text f) (parse_tags (tags_entry f))
          (checked_platforms (platform_vars f)) (privacy_var f)
          (status v).

(** Reading the widgets raises when there is no live form. *)
Definition read_form (st : App) : exn + Form :=
  match editor st with
  | FormShown f => inr f
  | NoForm => inl AttributeError
  | FormDestroyed => inl TclError
  end.

Definition save_video_changes (r : ref) (st : App) : App :=
  match read_form st with
  | inr f =>
      update_status "Changes saved"
        (refresh_video_list (set_heap (alter (video_update f) r (heap st)) st))
  | inl e => log (EvShowError "Error" "Failed to save changes: " e) st
  end.

(** [x == y] on two video references: identity first, then the dicts. *)
Definition video_eqb (st : App) (x y : ref) : bool :=
  bool_decide (x = y) || bool_decide (heap st !! x = heap st !! y).

(** [l.remove(x)]: drops the first item equal to [x]; [None] when there is
    none, where Python raises ValueError. *)
Fixpoint list_remove (eqb : ref -> bool) (l : list ref) : option (list ref) :=
  match l with
  | [] => None
  | y :: l' =>
      if eqb y then Some l'
      else match list_remove eqb l' with
           | Some l'' => Some (y :: l'')
           | None => None
           end
  end.

Definition remove_video (confirm : bool) (r : ref) (st : App) : outcome :=
  match heap st !! r with
  | Some v =>
      let st1 :=
        log (EvAskYesNo "Confirm" ("Remove '" ++ name v ++ "' from queue?") confirm) st in
      if confirm then
        match list_remove (fun y => video_eqb st y r) (videos st1) with
        | Some vs =>
            Done (update_status ("Removed: " ++ name v)
                    (show_default_editor_message
                       (refresh_video_list (set_videos vs st1))))
        | None => Raised ValueError st1
        end
      else Done st1
  | None => Done st
  end.

(** ** Worker threads *)

(** The [try] block of [upload_thread]. *)
Definition upload_body (r : ref) : list cmd :=
  [CSetStatus r "uploading"; CRefresh; CUpdateStatus "Uploading: " r]
  ++ flat_map (fun i => [CSleep 50; CProgress i; CIdle]) (seq 0 101)
  ++ [CSetStatus r "completed"; CRefresh; CUpdateStatus "Completed: " r;
      CProgress 0].

(** The [except Exception] block of [upload_thread]. *)
Definition upload_handler (r : ref) : list cmd :=
  [CSetStatus r "failed"; CRefresh; CShowUploadError r].

Definition upload_thread (r : ref) : thread :=
  mkThread (upload_body r) (Some (upload_handler r)) None.

(** [threading.Thread(target=..., daemon=True).start()] *)
Definition start_thread (t : thread) (st : App) : App :=
  log (EvThreadStart (length (threads st))) (set_threads (threads st ++ [t]) st).

Definition upload_single_video (r : ref) (st : App) : App :=
  start_thread (upload_thread r) st.

(** The loop of [upload_all_thread] over the videos selected beforehand. *)
Definition upload_all_body (pending_videos : list ref) : list cmd :=
  flat_map (fun r => [CUploadSingle r; CSleep 1000]) pending_videos.

Definition upload_all_thread (pending_videos : list ref) : thread :=
  mkThread (upload_all_body pending_videos) None None.

Definition upload_all_videos (st : App) : App :=
  let pending_videos := List.filter (is_pending st) (videos st) in
  match pending_videos with
  | [] => log (EvShowInfo "Info" "No pending videos to upload") st
  | _ :: _ => start_thread (upload_all_thread pending_videos) st
  end.

(** One call of a worker, run to its end without an exception. *)
Definition exec_cmd (exc : option exn) (c : cmd) (st : App) : App :=
  match c with
  | CSetStatus r s => set_heap (alter (set_status s) r (heap st)) st
  | CRefresh => refresh_video_list st
  | CUpdateStatus text r =>
      match heap st !! r with
      | Some v => update_status (text ++ name v) st
      | None => st
      end
  | CSleep ms => log (EvSleep ms) st
  | CProgress i => log (EvProgress i) (set_progress_bar i st)
  | CIdle => log EvIdle st
  | CShowUploadError r =>
      match heap st !! r, exc with
      | Some v, Some e =>
          log (EvShowError "Upload Error" ("Failed to upload " ++ name v ++ ": ") e) st
      | _, _ => st
      end
  | CUploadSingle r => upload_single_video r st
  end.

(** The calls into Tk are the ones that can raise. *)
Definition can_raise (c : cmd) : bool :=
  match c with
  | CSetStatus _ _ | CSleep _ | CUploadSingle _ => false
  | CRefresh | CUpdateStatus _ _ | CProgress _ | CIdle | CShowUploadError _ => true
  end.

(** What is left of a thread whose next call raised [e]: the handler if the
    block is guarded, nothing otherwise. *)
Definition raise_in (e : exn) (t : thread) : thread :=
  match handler t with
  | Some h => mkThread h None (Some e)
  | None => mkThread [] None (caught t)
  end.

(** One step of the thread [tid]; [fault] is the exception its next call
    raises, if it is a call that can raise. *)
Definition step_thread (tid : nat) (fault : option exn) (st : App) : App :=
  match threads st !! tid with
  | Some t =>
      match body t with
      | c :: rest =>
          match (if can_raise c then fault else None) with
          | Some e => set_threads (<[tid := raise_in e t]> (threads st)) st
          | None =>
              let st' := exec_cmd (caught t) c st in
              set_threads
                (<[tid := mkThread rest (handler t) (caught t)]> (threads st')) st'
          end
      | [] => st
      end
  | None => st
  end.

(** A schedule: which thread moves next, and whether its call raises. *)
Definition schedule := list (nat * option exn).

Definition run (sched : schedule) (st : App) : App :=
  fold_left (fun s '(tid, fault) => step_thread tid fault s) sched st.

(** [n] steps of one thread, none of which raises. *)
Definition quiet (tid n : nat) : schedule := repeat (tid, None) n.

(** ** Adding files *)

Section AddVideos.

(** [Path(p).name] and [Path(p).stem] of [pathlib], which depend on the
    platform's path flavour. *)
Variable path_name : string -> string.
Variable path_stem : string -> string.

(** The dict literal of [add_videos], for a queue of [n] videos. *)
Definition new_video (n : nat) (file_path : string) : Video :=
  {| id := n + 1;
     path := file_path;
     name := path_name file_path;
     title := path_stem file_path;
     description := "";
     tags := [];
     platforms := ["youtube"];
     privacy := "public";
     status := "pending" |}.

(** [self.videos.append(video)] for a dict that was just built *)
Definition append_video (v : Video) (st : App) : App :=
  set_videos (videos st ++ [length (heap st)]) (set_heap (heap st ++ [v]) st).

Fixpoint add_loop (files : list string) (st : App) : App :=
  match files with
  | [] => st
  | file_path :: files' =>
      add_loop files' (append_video (new_video (length (videos st)) file_path) st)
  end.

(** [files] is what the file dialog returned. *)
Definition add_videos (files : list string) (st : App) : App :=
  update_status ("Added " ++ PyStr.of_nat (length files) ++ " video(s)")
    (refresh_video_list (add_loop files st)).

End AddVideos.

(** ** The configuration file *)

(** Why [json.load] rejects the content of a file. *)
Inductive decode_failure :=
| BadSyntax      (* the text is not JSON: JSONDecodeError *)
| BadEncoding    (* bytes that the encoding of the file cannot decode *)
| BadInteger     (* an integer with more digits than [int] converts *)
| TooDeep.       (* arrays or objects nested beyond the recursion limit *)

(** The exception that [json.load] raises for it. *)
Definition decode_exn (d : decode_failure) : exn :=
  match d with
  | BadSyntax => JSONDecodeError
  | BadEncoding => UnicodeDecodeError
  | BadInteger => ValueError
  | TooDeep => RecursionError
  end.

(** [gui_config.json] as [open] and [json.load] find it. *)
Inductive config_file :=
| FileAbsent                           (* open raises FileNotFoundError *)
| FileUnreadable                       (* open raises another OSError *)
| FileMalformed (d : decode_failure)   (* json.load raises *)
| FileJson (config : json).            (* objects come with distinct keys *)

Definition hashable (k : json) : bool :=
  match k with
  | JArr _ | JObj _ => false
  | JNull | JBool _ | JInt _ | JStr _ => true
  end.

(** Equality of two hashable keys: [True == 1] and [False == 0]. *)
Definition key_eqb (a b : json) : bool :=
  match a, b with
  | JNull, JNull => true
  | JStr x, JStr y => String.eqb x y
  | JBool x, JBool y => Bool.eqb x y
  | JInt x, JInt y => Z.eqb x y
  | JBool x, JInt y | JInt y, JBool x => Z.eqb (if x then 1 else 0) y
  | _, _ => false
  end.

(** [d[k] = v]: an existing key keeps its place and its key object. *)
Fixpoint dict_set (k v : json) (d : pydict) : pydict :=
  match d with
  | [] => [(k, v)]
  | (k', v') :: d' =>
      if key_eqb k' k then (k', v) :: d' else (k', v') :: dict_set k v d'
  end.

(** [d.get(k, default)] on the members of a parsed object *)
Fixpoint json_get (k : string) (members : list (string * json)) (default : json) : json :=
  match members with
  | [] => default
  | (k', v) :: members' => if String.eqb k' k then v else json_get k members' default
  end.

(** One element of a sequence given to [dict.update]: it is read as a
    sequence of length two. *)
Definition update_pair (item : json) (d : pydict) : exn + pydict :=
  match item with
  | JArr [k; v] => if hashable k then inr (dict_set k v d) else inl TypeError
  | JArr _ => inl ValueError
  | JStr (String a (String b EmptyString)) =>
      inr (dict_set (JStr (String a EmptyString)) (JStr (String b EmptyString)) d)
  | JStr _ => inl ValueError
  | JObj [(k1, _); (k2, _)] => inr (dict_set (JStr k1) (JStr k2) d)
  | JObj _ => inl ValueError
  | JNull | JBool _ | JInt _ => inl TypeError
  end.

(** The elements are merged in order; the dict keeps what was merged before
    an element raises. *)
Fixpoint update_seq (items : list json) (d : pydict) : pydict * option exn :=
  match items with
  | [] => (d, None)
  | item :: items' =>
      match update_pair item d with
      | inr d' => update_seq items' d'
      | inl e => (d, Some e)
      end
  end.

(** [d.update(other)] for a value read by [json.load]. *)
Definition dict_update (other : json) (d : pydict) : pydict * option exn :=
  match other with
  | JObj members =>
      (fold_left (fun acc '(k, v) => dict_set (JStr k) v acc) members d, None)
  | JArr items => update_seq items d
  | JStr EmptyString => (d, None)
  | JStr (String _ _) => (d, Some ValueError)
  | JNull | JBool _ | JInt _ => (d, Some TypeError)
  end.

Definition load_config (file : config_file) (st : App) : outcome :=
  let st1 := log (EvOpen "gui_config.json" "r") st in
  match file with
  | FileAbsent => Done st1
  | FileUnreadable => Raised OSError st1
  | FileMalformed d => Raised (decode_exn d) st1
  | FileJson (JObj members) =>
      match dict_update (json_get "credentials" members (JObj [])) (credentials st1) with
      | (d, None) => Done (set_credentials d st1)
      | (d, Some e) => Raised e (set_credentials d st1)
      end
  | FileJson _ => Raised AttributeError st1
  end.

(** [self.credentials] as [__init__] sets it *)
Definition default_credentials : pydict :=
  [(JStr "youtube",
    JObj [("client_id", JStr ""); ("client_secret", JStr "");
          ("authenticated", JBool false)]);
   (JStr "instagram",
    JObj [("username", JStr ""); ("password", JStr "");
          ("authenticated", JBool false)])].

(** The object built by [__init__] before [load_config] is called. *)
Definition initial_app : App :=
  {| heap := [];
     videos := [];
     current_video := None;
     credentials := default_credentials;
     editor := NoForm;
     status_label := "Ready";
     progress_bar := 0;
     threads := [];
     trace := [] |}.

(** [ModernSocialMediaGUI()] *)
Definition startup (file : config_file) : outcome := load_config file initial_app.

(** ** The callbacks of the main thread *)

Inductive op :=
| OpAddVideos (files : list string)
| OpSelectVideo (r : ref)
| OpEditForm (f : Form)
| OpSaveChanges (r : ref)
| OpRemoveVideo (r : ref) (confirm : bool)
| OpUploadNow (r : ref)
| OpUploadAll.

Section Callbacks.

Variable path_name : string -> string.
Variable path_stem : string -> string.

Definition exec_op (o : op) (st : App) : App :=
  match o with
  | OpAddVideos files => add_videos path_name path_stem files st
  | OpSelectVideo r => select_video r st
  | OpEditForm f => edit_form f st
  | OpSaveChanges r => save_video_changes r st
  | OpRemoveVideo r confirm => after_callback (remove_video confirm r st)
  | OpUploadNow r => upload_single_video r st
  | OpUploadAll => upload_all_videos st
  end.

End Callbacks.

(** ** Observations used in the statements *)

(** A tag as [parse_tags] stores it: not empty, nothing to trim, no comma. *)
Definition is_clean_tag (t : string) : bool :=
  PyStr.truthy t && String.eqb (PyStr.strip t) t && negb (PyStr.contains "," t).

(** A string that starts with no white space. *)
Definition starts_clean (s : string) : bool :=
  match s with
  | EmptyString => true
  | String c _ => negb (PyStr.is_space c)
  end.

(** A string that ends with no white space. *)
Fixpoint ends_clean (s : string) : bool :=
  match s with
  | EmptyString => true
  | String c EmptyString => negb (PyStr.is_space c)
  | String _ s' => ends_clean s'
  end.

(** The events logged from [st] to a later state [st']. *)
Definition events_since (st st' : App) : list event :=
  drop (length (trace st)) (trace st').

(** The positions of the progress bar, in hundredths, in the order shown. *)
Definition progress_values (tr : list event) : list nat :=
  flat_map (fun e => match e with EvProgress i => [i] | _ => [] end) tr.

(** The time slept, in milliseconds. *)
Definition sleep_total (tr : list event) : nat :=
  list_sum (flat_map (fun e => match e with EvSleep ms => [ms] | _ => [] end) tr).

(** File access is the only input or output of the program besides the GUI. *)
Definition is_external_io (e : event) : bool :=
  match e with EvOpen _ _ => true | _ => false end.

(** The threads started, in order. *)
Definition thread_starts (tr : list event) : list nat :=
  flat_map (fun e => match e with EvThreadStart tid => [tid] | _ => [] end) tr.

(** Several calls of one worker in a row, none of which raises. *)
Definition exec_cmds (exc : option exn) (cs : list cmd) (st : App) : App :=
  fold_left (fun s c => exec_cmd exc c s) cs st.

(** The event that a call logs, for the calls whose event does not depend
    on the state. *)
Definition cmd_events (c : cmd) : list event :=
  match c with
  | CRefresh => [EvRefresh]
  | CSleep ms => [EvSleep ms]
  | CProgress i => [EvProgress i]
  | CIdle => [EvIdle]
  | CSetStatus _ _ | CUpdateStatus _ _ | CShowUploadError _ | CUploadSingle _ => []
  end.

Definition is_plain (c : cmd) : bool :=
  match c with
  | CShowUploadError _ | CUploadSingle _ => false
  | _ => true
  end.

(** The effect of a call on the video dicts. *)
Definition cmd_heap (c : cmd) (h : list Video) : list Video :=
  match c with
  | CSetStatus r s => alter (set_status s) r h
  | _ => h
  end.

(** The calls of a block write only to the videos in [P]. *)
Definition writes_within (P : ref -> Prop) (cs : list cmd) : Prop :=
  Forall (fun c => match c with
                   | CSetStatus r _ | CUploadSingle r => P r
                   | _ => True
                   end) cs.

Definition thread_within (P : ref -> Prop) (t : thread) : Prop :=
  writes_within P (body t)
  /\ match handler t with Some h => writes_within P h | None => True end.

(** ** Concrete inputs for the examples *)

(** [Path(p).name] and [Path(p).stem] for the POSIX flavour of [pathlib]. *)
Module PosixPath.

(** The parts of a path, without the root: empty and ["."] components
    are dropped. *)
Definition parts (p : string) : list string :=
  List.filter (fun c => PyStr.truthy c && negb (String.eqb c "."))
              (PyStr.split "/" p).

Definition name (p : string) : string := List.last (parts p) "".

(** The name up to its last dot, unless that dot is the first or the last
    character. *)
Definition stem (p : string) : string :=
  let n := name p in
  let pieces := PyStr.split "." n in
  let front := PyStr.join "." (removelast pieces) in
  match pieces with
  | _ :: _ :: _ =>
      if PyStr.truthy front && PyStr.truthy (List.last pieces "") then front else n
  | _ => n
  end.

End PosixPath.

(** A queue that holds one file. *)
Definition one_clip : App :=
  add_videos PosixPath.name PosixPath.stem ["/videos/clip.mp4"] initial_app.

(** The only video of [one_clip]. *)
Definition clip : Video :=
  {| id := 1;
     path := "/videos/clip.mp4";
     name := "clip.mp4";
     title := "clip";
     description := "";
     tags := [];
     platforms := ["youtube"];
     privacy := "public";
     status := "pending" |}.

(** The clip is selected for editing. *)
Definition editing_clip : App := select_video 0 one_clip.

(** The clip is selected, "Upload Now" was pressed and the upload thread
    made its first step. *)
Definition uploading_clip : App :=
  step_thread 0 None (upload_single_video 0 editing_clip).

(** The upload of the clip ran to its end. *)
Definition completed_clip : App :=
  run (quiet 0 (length (upload_body 0))) (upload_single_video 0 one_clip).

(** Values typed into the form. *)
Definition typed_form : Form :=
  {| title_entry := "renamed";
     desc_text := "new text";
     tags_entry := "cat, dog, cat";
     platform_vars := [("youtube", false); ("instagram", true); ("tiktok", false)];
     privacy_var := "private" |}.

(** A call of the upload raised and the handler ran. *)
Definition failed_clip : App :=
  run (quiet 0 1 ++ [(0, Some TclError)] ++ quiet 0 3) (upload_single_video 0 one_clip).

(** Two files are queued and the upload of the first one has made its
    first step. *)
Definition first_uploading : App :=
  step_thread 0 None
    (upload_single_video 0
       (add_videos PosixPath.name PosixPath.stem
                   ["/videos/a.mp4"; "/videos/b.mp4"] initial_app)).

(** ** The settings dialog and the configuration file on disk *)

(** Exceptions of the settings dialog: a missing key, a subscript on a
    value that is not a dict (TypeError), an entry that is given no text
    (TclError), [open] failing for writing (OSError) and a key that
    [json.dump] cannot write (TypeError). *)
Inductive settings_exn :=
| KeyError (key : string)
| ItemTypeError
| InsertError
| WriteError
| DumpError.

(** [d[k]] on a dict of [self.credentials]; [None] where Python raises
    KeyError. *)
Fixpoint dict_get (k : json) (d : pydict) : option json :=
  match d with
  | [] => None
  | (k', v) :: d' => if key_eqb k' k then Some v else dict_get k d'
  end.

(** [m[k]] on the members of an object. *)
Fixpoint member (k : string) (m : list (string * json)) : option json :=
  match m with
  | [] => None
  | (k', v) :: m' => if String.eqb k' k then Some v else member k m'
  end.

(** [m[k] = v] on the members of an object. *)
Fixpoint members_set (k : string) (v : json) (m : list (string * json))
  : list (string * json) :=
  match m with
  | [] => [(k, v)]
  | (k', v') :: m' =>
      if String.eqb k' k then (k', v) :: m' else (k', v') :: members_set k v m'
  end.

(** [self.credentials[outer][inner]] *)
Definition credential (outer inner : string) (d : pydict) : settings_exn + json :=
  match dict_get (JStr outer) d with
  | None => inl (KeyError outer)
  | Some (JObj m) =>
      match member inner m with
      | Some v => inr v
      | None => inl (KeyError inner)
      end
  | Some _ => inl ItemTypeError
  end.

(** [self.credentials[outer][inner] = value]: the inner dict is changed in
    place, so the outer key keeps its position. *)
Definition set_credential (outer inner : string) (value : json) (d : pydict)
  : settings_exn + pydict :=
  match dict_get (JStr outer) d with
  | None => inl (KeyError outer)
  | Some (JObj m) => inr (dict_set (JStr outer) (JObj (members_set inner value m)) d)
  | Some _ => inl ItemTypeError
  end.

(** [entry.insert(0, value)]: Tk ends the arguments of the widget command
    at a [None], so the command is sent without its text and raises
    TclError; every other value is converted to a Tcl object and inserted. *)
Definition entry_insert (value : json) : settings_exn + json :=
  match value with
  | JNull => inl InsertError
  | JBool _ | JInt _ | JStr _ | JArr _ | JObj _ => inr value
  end.

(** [entry.insert(0, self.credentials[outer][inner])] *)
Definition insert_credential (outer inner : string) (d : pydict)
  : settings_exn + json :=
  match credential outer inner d with
  | inl e => inl e
  | inr value => entry_insert value
  end.

(** The values that [create_settings_window] inserts into its three
    entries, read and inserted in the order of the source; the first call
    that raises ends the construction of the window. *)
Definition create_settings_window (st : App) : settings_exn + (json * json * json) :=
  match insert_credential "youtube" "client_id" (credentials st) with
  | inl e => inl e
  | inr youtube_id =>
      match insert_credential "instagram" "username" (credentials st) with
      | inl e => inl e
      | inr instagram_user =>
          match insert_credential "instagram" "password" (credentials st) with
          | inl e => inl e
          | inr instagram_pass => inr (youtube_id, instagram_user, instagram_pass)
          end
      end
  end.

(** The key that [json.dump] writes for a dict key: strings as they are,
    integers in decimal, [True], [False] and [None] as JSON literals. *)
Definition dump_key (k : json) : option string :=
  match k with
  | JStr s => Some s
  | JInt n => Some (NilZero.string_of_int (Z.to_int n))
  | JBool true => Some "true"
  | JBool false => Some "false"
  | JNull => Some "null"
  | JArr _ | JObj _ => None
  end.

Fixpoint dump_members (d : pydict) : option (list (string * json)) :=
  match d with
  | [] => Some []
  | (k, v) :: d' =>
      match dump_key k, dump_members d' with
      | Some s, Some m => Some ((s, v) :: m)
      | _, _ => None
      end
  end.

(** The members that [json.load] builds from the members written: a key
    written twice keeps its first place and its last value. *)
Definition load_members (written : list (string * json)) : list (string * json) :=
  fold_left (fun acc '(k, v) => members_set k v acc) written [].

(** The result of a callback that writes the configuration file: the
    exception that escaped if any, the application, and the new content of
    the file when it was opened for writing. *)
Record saved := mkSaved {
  escaped : option settings_exn;
  after : App;
  disk : option config_file
}.

(** [save_config]; [writable] says whether [open(..., "w")] succeeds. *)
Definition save_config (writable : bool) (st : App) : saved :=
  let st1 := log (EvOpen "gui_config.json" "w") st in
  if writable then
    match dump_members (credentials st) with
    | Some m =>
        mkSaved None st1
                (Some (FileJson (JObj [("credentials", JObj (load_members m))])))
    | None => mkSaved (Some DumpError) st1 (Some (FileMalformed BadSyntax))
    end
  else mkSaved (Some WriteError) st1 None.

(** The [save_settings] callback of the dialog, for the texts of the three
    entries. *)
Definition save_settings (youtube_id instagram_user instagram_pass : string)
    (writable : bool) (st : App) : saved :=
  match set_credential "youtube" "client_id" (JStr youtube_id) (credentials st) with
  | inl e => mkSaved (Some e) st None
  | inr d1 =>
      match set_credential "instagram" "username" (JStr instagram_user) d1 with
      | inl e => mkSaved (Some e) (set_credentials d1 st) None
      | inr d2 =>
          match set_credential "instagram" "password" (JStr instagram_pass) d2 with
          | inl e => mkSaved (Some e) (set_credentials d2 st) None
          | inr d3 =>
              let s := save_config writable (set_credentials d3 st) in
              match escaped s with
              | None => mkSaved None (update_status "Settings saved" (after s)) (disk s)
              | Some e => s
              end
          end
      end
  end.

(** [main]: the GUI runs, or the exception of the constructor is printed. *)
Inductive launch :=
| Running (app : App)
| StartError (e : exn).

Definition main (file : config_file) : launch :=
  match startup file with
  | Done app => Running app
  | Raised e _ => StartError e
  end.

(** A dict whose keys are strings, each used once. *)
Definition str_keys (d : pydict) : Prop :=
  exists m : list (string * json),
    d = map (fun kv => (JStr (fst kv), snd kv)) m /\ NoDup (map fst m).

(** The keys of a Python dict are pairwise different. *)
Fixpoint distinct_keys (d : pydict) : bool :=
  match d with
  | [] => true
  | (k, _) :: d' =>
      forallb (fun kv => negb (key_eqb k (fst kv))) d' && distinct_keys d'
  end.

(** ** The events of a running program *)

(** The user types into the entries of the form. *)
Definition type_title (s : string) (f : Form) : Form :=
  mkForm s (desc_text f) (tags_entry f) (platform_vars f) (privacy_var f).

Definition type_description (s : string) (f : Form) : Form :=
  mkForm (title_entry f) s (tags_entry f) (platform_vars f) (privacy_var f).

Definition type_tags (s : string) (f : Form) : Form :=
  mkForm (title_entry f) (desc_text f) s (platform_vars f) (privacy_var f).

(** A click on the check box of platform [p]: its variable flips.  The
    box of ['tiktok'] is disabled and there is no box for another name. *)
Definition toggle_platform (p : string) (f : Form) : Form :=
  if String.eqb p "tiktok" then f
  else mkForm (title_entry f) (desc_text f) (tags_entry f)
              (map (fun qb => if String.eqb (fst qb) p then (fst qb, negb (snd qb)) else qb)
                   (platform_vars f))
              (privacy_var f).

(** A choice in the privacy menu, whose values are ["public", "private"]. *)
Definition choose_privacy (private : bool) (f : Form) : Form :=
  mkForm (title_entry f) (desc_text f) (tags_entry f) (platform_vars f)
         (if private then "private" else "public").

(** A change of the form that is shown. *)
Definition on_form (g : Form -> Form) (st : App) : App :=
  match editor st with
  | FormShown f => set_editor (FormShown (g f)) st
  | NoForm | FormDestroyed => st
  end.

(** A button of the form that is shown: its callback holds the video that
    [select_video] was called with. *)
Definition form_button (callback : ref -> App -> App) (st : App) : App :=
  match editor st, current_video st with
  | FormShown _, Some r => callback r st
  | _, _ => st
  end.

Inductive gui_event :=
| GAddVideos (files : list string)          (* "Add Videos" and the file dialog *)
| GEdit (i : nat)                            (* "Edit" of the i-th item of the list *)
| GTypeTitle (s : string)
| GTypeDescription (s : string)
| GTypeTags (s : string)
| GToggle (p : string)
| GPrivacy (private : bool)
| GSave                                      (* "Save Changes" *)
| GUploadNow                                 (* "Upload Now" *)
| GRemove (confirm : bool)                   (* "Remove" and the confirmation *)
| GUploadAll                                 (* "Upload All" *)
| GSaveSettings (youtube_id instagram_user instagram_pass : string)
                (writable : bool)            (* "Save" of a settings window *)
| GStep (tid : nat) (fault : option exn).    (* a worker thread moves *)

Section Events.

Variable path_name : string -> string.
Variable path_stem : string -> string.

Definition fire (ev : gui_event) (st : App) : App :=
  match ev with
  | GAddVideos files => add_videos path_name path_stem files st
  | GEdit i =>
      match videos st !! i with
      | Some r => select_video r st
      | None => st
      end
  | GTypeTitle s => on_form (type_title s) st
  | GTypeDescription s => on_form (type_description s) st
  | GTypeTags s => on_form (type_tags s) st
  | GToggle p => on_form (toggle_platform p) st
  | GPrivacy private => on_form (choose_privacy private) st
  | GSave => form_button save_video_changes st
  | GUploadNow => form_button upload_single_video st
  | GRemove confirm =>
      form_button (fun r s => after_callback (remove_video confirm r s)) st
  | GUploadAll => upload_all_videos st
  | GSaveSettings a b c writable =>
      match create_settings_window st with
      | inr _ => after (save_settings a b c writable st)
      | inl _ => st
      end
  | GStep tid fault => step_thread tid fault st
  end.

Definition fire_all (evs : list gui_event) (st : App) : App :=
  fold_left (fun s ev => fire ev s) evs st.

End Events.

(** The values that the program gives to the fields of a video. *)
Definition valid_status (s : string) : Prop :=
  s ∈ ["pending"; "uploading"; "completed"; "failed"].

Definition valid_privacy (s : string) : Prop := s ∈ ["public"; "private"].

Definition valid_platforms (l : list string) : Prop :=
  l ∈ [[]; ["youtube"]; ["instagram"]; ["youtube"; "instagram"]].

Definition video_ok (v : Video) : Prop :=
  valid_status (status v) /\ valid_privacy (privacy v)
  /\ valid_platforms (platforms v)
  /\ Forall (fun t => is_clean_tag t = true) (tags v).

Definition form_ok (e : editor_state) : Prop :=
  match e with
  | FormShown f =>
      valid_privacy (privacy_var f)
      /\ exists y i, platform_vars f = [("youtube", y); ("instagram", i); ("tiktok", false)]
  | NoForm | FormDestroyed => True
  end.

(** The statuses and the positions of the progress bar that the calls of a
    block write. *)
Definition cmds_ok (cs : list cmd) : Prop :=
  Forall (fun c => match c with
                   | CSetStatus _ s => valid_status s
                   | CProgress i => i <= 100
                   | _ => True
                   end) cs.

Definition thread_ok (t : thread) : Prop :=
  cmds_ok (body t) /\ match handler t with Some h => cmds_ok h | None => True end.

(** What holds in every state of a running program. *)
Definition app_ok (st : App) : Prop :=
  Forall video_ok (heap st)
  /\ form_ok (editor st)
  /\ NoDup (videos st)
  /\ Forall (fun r => r < length (heap st)) (videos st)
  /\ Forall thread_ok (threads st)
  /\ progress_bar st <= 100.

(** A session used in the examples: one file is added and selected,
    Instagram is ticked, tags are typed and the form is saved. *)
Definition example_session : list gui_event :=
  [GAddVideos ["/videos/clip.mp4"]; GEdit 0; GToggle "instagram";
   GToggle "tiktok"; GTypeTags "cat, dog"; GPrivacy true; GSave; GUploadNow;
   GStep 0 None].

(** The program after that session, started without a configuration file. *)
Definition example_state : App :=
  fire_all PosixPath.name PosixPath.stem example_session
           (log (EvOpen "gui_config.json" "r") initial_app).

(** The video of [example_state]. *)
Definition example_video : Video :=
  {| id := 1;
     path := "/videos/clip.mp4";
     name := "clip.mp4";
     title := "clip";
     description := "";
     tags := ["cat"; "dog"];
     platforms := ["youtube"; "instagram"];
     privacy := "private";
     status := "uploading" |}.


(** The fields of a video that identify the file. *)
Definition same_file (v v' : Video) : Prop :=
  id v' = id v /\ path v' = path v /\ name v' = name v.

(** The status writes of a block lead to ['completed']: each of them
    writes it, or is followed by a write of it to the same video. *)
Fixpoint ends_completed (cs : list cmd) : Prop :=
  match cs with
  | [] => True
  | c :: rest =>
      match c with
      | CSetStatus r s => s = "completed" \/ In (CSetStatus r "completed") rest
      | _ => True
      end
      /\ ends_completed rest
  end.

(** The thread still has to complete the upload of [r], or to start it. *)
Definition will_complete (r : ref) (t : thread) : Prop :=
  In (CSetStatus r "completed") (body t) \/ In (CUploadSingle r) (body t).

(** Among the threads from number [n] on, every upload of a video in [P]
    is done or still under way. *)
Definition uploads_pending (n : nat) (P : ref -> Prop) (st : App) : Prop :=
  Forall (fun t => ends_completed (body t)) (drop n (threads st))
  /\ forall r, P r ->
       is_Some (heap st !! r)
       /\ (status_of st r = Some "completed"
           \/ exists j t, n <= j /\ threads st !! j = Some t /\ will_complete r t).

(** The click on "Remove" that the user confirms. *)
Definition confirmed_removal (ev : gui_event) : bool :=
  match ev with
  | GRemove true => true
  | _ => false
  end.

(** The queue holds every dict, in the order of creation, and the ids count
    the dicts from 1. *)
Definition ids_in_order (st : App) : Prop :=
  videos st = seq 0 (length (heap st))
  /\ id <$> heap st = seq 1 (length (heap st)).

(** A thread that [upload_single_video] started for the video [r]: it is
    in the [try] block of [upload_thread], or in its handler. *)
Definition runs_upload (r : ref) (t : thread) : Prop :=
  (exists k, body t = drop k (upload_body r)
             /\ handler t = Some (upload_handler r))
  \/ (exists k, body t = drop k (upload_handler r) /\ handler t = None).

(** A thread that [upload_all_videos] started: it is in the loop of
    [upload_all_thread]. *)
Definition runs_upload_all (t : thread) : Prop :=
  exists l k, body t = drop k (upload_all_body l) /\ handler t = None.

(** The program starts no other threads. *)
Definition known_thread (t : thread) : Prop :=
  (exists r, runs_upload r t) \/ runs_upload_all t.

Definition threads_known (st : App) : Prop := Forall known_thread (threads st).

(** * Properties *)

(** ** Sanity checks of the string functions against Python *)

Example strip_example : PyStr.strip "  a b	" = "a b".
Proof. reflexivity. Qed.

Example split_example : PyStr.split "," "a,,b," = ["a"; ""; "b"; ""].
Proof. reflexivity. Qed.

Example split_empty_example : PyStr.split "," "" = [""].
Proof. reflexivity. Qed.

Example parse_tags_example : parse_tags " cat, ,dog ,,bird" = ["cat"; "dog"; "bird"].
Proof. reflexivity. Qed.

Example of_nat_example : PyStr.of_nat 12 = "12".
Proof. reflexivity. Qed.

(** ** Splitting and trimming *)

Section StringLemmas.

Import PyStr.

Lemma split_nonempty sep s : split sep s <> [].
Proof.
  destruct s as [|c s]; simpl; [discriminate|].
  destruct (Ascii.eqb c sep); [discriminate|].
  destruct (split sep s); discriminate.
Qed.

Lemma split_without_sep sep s :
  contains sep s = false -> split sep s = [s].
Proof.
  induction s as [|c s IH]; simpl; [reflexivity|].
  intros H. apply orb_false_elim in H as [Hc Hs].
  rewrite Hc, (IH Hs). reflexivity.
Qed.

Lemma split_app sep a b :
  contains sep a = false ->
  split sep (a ++ String sep b) = a :: split sep b.
Proof.
  induction a as [|c a IH]; simpl.
  - intros _. rewrite Ascii.eqb_refl. reflexivity.
  - intros H. apply orb_false_elim in H as [Hc Ha].
    rewrite Hc, (IH Ha). reflexivity.
Qed.

Lemma split_pieces_without_sep sep s :
  Forall (fun p => contains sep p = false) (split sep s).
Proof.
  induction s as [|c s IH]; simpl.
  - repeat constructor.
  - destruct (Ascii.eqb c sep) eqn:Hc.
    + constructor; [reflexivity | exact IH].
    + destruct (split sep s) as [|p ps].
      * repeat constructor. simpl. rewrite Hc. reflexivity.
      * inversion IH as [|? ? Hp Hps]; subst.
        constructor; [simpl; rewrite Hc; exact Hp | exact Hps].
Qed.

Lemma contains_lstrip c s : contains c s = false -> contains c (lstrip s) = false.
Proof.
  induction s as [|a s IH]; simpl; [reflexivity|].
  intros H. destruct (is_space a); [|exact H].
  apply orb_false_elim in H as [_ Hs]. auto.
Qed.

Lemma contains_rstrip c s : contains c s = false -> contains c (rstrip s) = false.
Proof.
  induction s as [|a s IH]; simpl; [reflexivity|].
  intros H. apply orb_false_elim in H as [Ha Hs]. specialize (IH Hs).
  destruct (rstrip s) as [|b r].
  - destruct (is_space a); simpl; [reflexivity | rewrite Ha; reflexivity].
  - change (contains c (String a (String b r))) with
      (Ascii.eqb a c || contains c (String b r)).
    rewrite Ha, IH. reflexivity.
Qed.

Lemma contains_strip c s : contains c s = false -> contains c (strip s) = false.
Proof. intros H. apply contains_rstrip, contains_lstrip, H. Qed.

Lemma lstrip_starts_clean s : starts_clean (lstrip s) = true.
Proof.
  induction s as [|c s IH]; simpl; [reflexivity|].
  destruct (is_space c) eqn:Hc; [exact IH | simpl; rewrite Hc; reflexivity].
Qed.

Lemma lstrip_fixed s : starts_clean s = true -> lstrip s = s.
Proof.
  destruct s as [|c s]; simpl; [reflexivity|].
  destruct (is_space c); [discriminate | reflexivity].
Qed.

Lemma rstrip_starts_clean s : starts_clean s = true -> starts_clean (rstrip s) = true.
Proof.
  destruct s as [|c s]; simpl; [reflexivity|].
  intros Hc. destruct (rstrip s); [|exact Hc].
  destruct (is_space c) eqn:E; simpl; [reflexivity | rewrite E; reflexivity].
Qed.

Lemma rstrip_idempotent s : rstrip (rstrip s) = rstrip s.
Proof.
  induction s as [|c s IH]; simpl; [reflexivity|].
  destruct (rstrip s) as [|b r] eqn:Hr.
  - destruct (is_space c) eqn:Hc; simpl; [reflexivity | rewrite Hc; reflexivity].
  - change (rstrip (String c (String b r))) with
      (match rstrip (String b r) with
       | EmptyString => if is_space c then EmptyString else String c EmptyString
       | r' => String c r'
       end).
    rewrite IH. reflexivity.
Qed.

Lemma strip_idempotent s : strip (strip s) = strip s.
Proof.
  unfold strip.
  rewrite (lstrip_fixed (rstrip (lstrip s))).
  - apply rstrip_idempotent.
  - apply rstrip_starts_clean, lstrip_starts_clean.
Qed.

Lemma strip_after_space c s : is_space c = true -> strip (String c s) = strip s.
Proof. intros H. unfold strip. simpl. rewrite H. reflexivity. Qed.

End StringLemmas.

(** ** The tags read from the form *)

Section TagLemmas.

Import PyStr.

Lemma is_clean_tag_spec t :
  is_clean_tag t = true <->
  truthy t = true /\ strip t = t /\ contains "," t = false.
Proof.
  unfold is_clean_tag. rewrite !andb_true_iff, String.eqb_eq, negb_true_iff.
  tauto.
Qed.

(** Every stored tag is clean. *)
Lemma parse_tags_clean s : Forall (fun t => is_clean_tag t = true) (parse_tags s).
Proof.
  unfold parse_tags.
  pose proof (split_pieces_without_sep "," s) as Hp.
  induction Hp as [|p ps Hc _ IH]; simpl; [constructor|].
  destruct (truthy (strip p)) eqn:Ht; simpl; [|exact IH].
  constructor; [|exact IH].
  apply is_clean_tag_spec. repeat split.
  - exact Ht.
  - apply strip_idempotent.
  - apply contains_strip, Hc.
Qed.

Lemma split_join t ts :
  Forall (fun t => is_clean_tag t = true) (t :: ts) ->
  split "," (join ", " (t :: ts)) = t :: map (String " ") ts.
Proof.
  revert t. induction ts as [|t2 ts IH]; intros t H.
  - inversion H as [|? ? Ht _]; subst. apply is_clean_tag_spec in Ht as (_ & _ & Hc).
    simpl. apply split_without_sep, Hc.
  - inversion H as [|? ? Ht Hts]; subst.
    apply is_clean_tag_spec in Ht as (_ & _ & Hc).
    change (join ", " (t :: t2 :: ts))
      with (t ++ String "," (String " " (join ", " (t2 :: ts))))%string.
    rewrite (split_app _ _ _ Hc).
    change (split "," (String " " (join ", " (t2 :: ts))))
      with (match split "," (join ", " (t2 :: ts)) with
            | [] => [String " " EmptyString]
            | piece :: pieces => String " " piece :: pieces
            end).
    rewrite (IH t2 Hts). reflexivity.
Qed.

Lemma parse_spaced_pieces ts :
  Forall (fun t => is_clean_tag t = true) ts ->
  map strip (List.filter (fun tag => truthy (strip tag)) (map (String " ") ts)) = ts.
Proof.
  induction 1 as [|t ts Ht _ IH]; simpl; [reflexivity|].
  apply is_clean_tag_spec in Ht as (Hn & Hs & _).
  rewrite (strip_after_space " " t eq_refl), Hs, Hn. simpl.
  rewrite (strip_after_space " " t eq_refl), Hs, IH. reflexivity.
Qed.

(** Reading back the text that the form shows for a list of clean tags
    gives the same list, repeated tags included. *)
Lemma parse_tags_join ts :
  Forall (fun t => is_clean_tag t = true) ts ->
  parse_tags (join ", " ts) = ts.
Proof.
  intros H. destruct ts as [|t ts]; [reflexivity|].
  unfold parse_tags. rewrite (split_join _ _ H).
  inversion H as [|? ? Ht Hts]; subst.
  apply is_clean_tag_spec in Ht as (Hn & Hs & _).
  simpl. rewrite Hs, Hn. simpl. rewrite Hs.
  f_equal. apply parse_spaced_pieces, Hts.
Qed.

(** Every text is its pieces joined by commas. *)
Lemma join_split s : join "," (split "," s) = s.
Proof.
  induction s as [|c s IH]; [reflexivity|].
  simpl. destruct (Ascii.eqb c ",") eqn:Hc.
  - apply Ascii.eqb_eq in Hc. subst c.
    pose proof (split_nonempty "," s) as Hne.
    destruct (split "," s) as [|p ps]; [congruence|].
    change (join "," ("" :: p :: ps)) with (String "," (join "," (p :: ps))).
    rewrite IH. reflexivity.
  - pose proof (split_nonempty "," s) as Hne.
    destruct (split "," s) as [|p ps]; [congruence|].
    destruct ps as [|q qs].
    + simpl in IH. subst s. reflexivity.
    + change (join "," (String c p :: q :: qs))
        with (String c (join "," (p :: q :: qs))).
      rewrite IH. reflexivity.
Qed.

(** Pieces without a comma are found again by [split]. *)
Lemma split_join_comma p ps :
  Forall (fun p => contains "," p = false) (p :: ps) ->
  split "," (join "," (p :: ps)) = p :: ps.
Proof.
  revert p. induction ps as [|q qs IH]; intros p H.
  - inversion H as [|? ? Hp _]; subst. apply split_without_sep, Hp.
  - inversion H as [|? ? Hp Hps]; subst.
    change (join "," (p :: q :: qs))
      with (p ++ String "," (join "," (q :: qs)))%string.
    rewrite (split_app _ _ _ Hp), (IH q Hps). reflexivity.
Qed.

Lemma strip_filter l :
  map strip (List.filter (fun tag => truthy (strip tag)) l)
  = List.filter truthy (map strip l).
Proof.
  induction l as [|p l IH]; simpl; [reflexivity|].
  destruct (truthy (strip p)); simpl; rewrite IH; reflexivity.
Qed.

(** The tags of a text, from its pieces. *)
Lemma parse_tags_pieces pieces :
  Forall (fun p => contains "," p = false) pieces ->
  parse_tags (join "," pieces) = List.filter truthy (map strip pieces).
Proof.
  intros H. destruct pieces as [|p ps]; [reflexivity|].
  unfold parse_tags. rewrite (split_join_comma p ps H). apply strip_filter.
Qed.

Lemma rstrip_ends_clean s : ends_clean (rstrip s) = true.
Proof.
  induction s as [|c s IH]; [reflexivity|].
  simpl. destruct (rstrip s) as [|b r].
  - destruct (is_space c) eqn:Hc; simpl; [reflexivity | rewrite Hc; reflexivity].
  - exact IH.
Qed.

(** A clean tag has a first and a last character, which are no white
    space. *)
Lemma clean_tag_ends t :
  is_clean_tag t = true ->
  t <> "" /\ starts_clean t = true /\ ends_clean t = true /\ contains "," t = false.
Proof.
  intros H. apply is_clean_tag_spec in H as (Hn & Hs & Hc).
  split; [intros ->; discriminate|]. split; [|split; [|exact Hc]].
  - rewrite <- Hs. apply rstrip_starts_clean, lstrip_starts_clean.
  - rewrite <- Hs. apply rstrip_ends_clean.
Qed.

End TagLemmas.

(** ** Steps of a worker thread *)

Lemma set_threads_same st : set_threads (threads st) st = st.
Proof. destruct st; reflexivity. Qed.

Lemma set_threads_twice ts ts' st :
  set_threads ts (set_threads ts' st) = set_threads ts st.
Proof. reflexivity. Qed.

Lemma threads_exec_cmd_length exc c st :
  length (threads st) <= length (threads (exec_cmd exc c st)).
Proof.
  destruct c; simpl; try lia.
  - destruct (heap st !! r); simpl; lia.
  - destruct (heap st !! r), exc; simpl; lia.
  - rewrite length_app. simpl. lia.
Qed.

Lemma threads_exec_cmds_length exc cs st :
  length (threads st) <= length (threads (exec_cmds exc cs st)).
Proof.
  revert st. induction cs as [|c cs IH]; intros st; simpl; [lia|].
  etransitivity; [apply (threads_exec_cmd_length exc c)|apply IH].
Qed.

(** A call of one worker does not look at the entry of another thread. *)
Lemma exec_cmd_set_thread exc c tid t st :
  tid < length (threads st) ->
  exec_cmd exc c (set_threads (<[tid := t]> (threads st)) st)
  = set_threads (<[tid := t]> (threads (exec_cmd exc c st))) (exec_cmd exc c st).
Proof.
  intros Hlt. destruct c; simpl; try reflexivity.
  - destruct (heap st !! r); reflexivity.
  - destruct (heap st !! r), exc; reflexivity.
  - unfold upload_single_video, start_thread, log, set_threads; simpl.
    rewrite length_insert, insert_app_l by exact Hlt. reflexivity.
Qed.

Lemma exec_cmds_set_thread exc cs tid t st :
  tid < length (threads st) ->
  exec_cmds exc cs (set_threads (<[tid := t]> (threads st)) st)
  = set_threads (<[tid := t]> (threads (exec_cmds exc cs st))) (exec_cmds exc cs st).
Proof.
  revert st. induction cs as [|c cs IH]; intros st Hlt; simpl; [reflexivity|].
  rewrite exec_cmd_set_thread by exact Hlt.
  apply IH. pose proof (threads_exec_cmd_length exc c st). lia.
Qed.

Lemma step_thread_quiet tid c rest h exc st :
  threads st !! tid = Some (mkThread (c :: rest) h exc) ->
  step_thread tid None st
  = set_threads (<[tid := mkThread rest h exc]> (threads (exec_cmd exc c st)))
                (exec_cmd exc c st).
Proof.
  intros Ht. unfold step_thread. rewrite Ht. simpl.
  destruct (can_raise c); reflexivity.
Qed.

(** A call that raises hands the thread over to its handler and changes
    nothing else. *)
Lemma step_thread_raise tid c rest h exc e st :
  threads st !! tid = Some (mkThread (c :: rest) h exc) ->
  can_raise c = true ->
  step_thread tid (Some e) st
  = set_threads (<[tid := raise_in e (mkThread (c :: rest) h exc)]> (threads st)) st.
Proof.
  intros Ht Hc. unfold step_thread. rewrite Ht. simpl. rewrite Hc. reflexivity.
Qed.

(** Running the next calls of a thread one step at a time is running them
    in a row and then recording what is left of the thread. *)
Lemma run_quiet tid cs rest h exc st :
  threads st !! tid = Some (mkThread (cs ++ rest) h exc) ->
  run (quiet tid (length cs)) st
  = set_threads (<[tid := mkThread rest h exc]> (threads (exec_cmds exc cs st)))
                (exec_cmds exc cs st).
Proof.
  revert st. induction cs as [|c cs IH]; intros st Ht.
  - simpl. rewrite list_insert_id by exact Ht. symmetry. apply set_threads_same.
  - assert (Hlt : tid < length (threads st)) by (eapply lookup_lt_Some; eauto).
    pose proof (threads_exec_cmd_length exc c st) as Hle.
    change (run (quiet tid (length (c :: cs))) st)
      with (run (quiet tid (length cs)) (step_thread tid None st)).
    rewrite (step_thread_quiet tid c (cs ++ rest) h exc st Ht).
    rewrite IH.
    + rewrite exec_cmds_set_thread by lia.
      simpl. rewrite set_threads_twice. f_equal.
      apply list_insert_insert_eq.
    + simpl. apply list_lookup_insert_eq. lia.
Qed.

(** ** What a block of calls does to the state *)

Lemma heap_exec_cmd exc c st : heap (exec_cmd exc c st) = cmd_heap c (heap st).
Proof.
  destruct c; simpl; try reflexivity.
  - destruct (heap st !! r); reflexivity.
  - destruct (heap st !! r), exc; reflexivity.
Qed.

Lemma heap_exec_cmds exc cs st :
  heap (exec_cmds exc cs st) = fold_left (fun h c => cmd_heap c h) cs (heap st).
Proof.
  revert st. induction cs as [|c cs IH]; intros st; simpl; [reflexivity|].
  rewrite IH, heap_exec_cmd. reflexivity.
Qed.

Lemma videos_exec_cmds exc cs st : videos (exec_cmds exc cs st) = videos st.
Proof.
  revert st. induction cs as [|c cs IH]; intros st; simpl; [reflexivity|].
  rewrite IH. destruct c; simpl; try reflexivity.
  - destruct (heap st !! r); reflexivity.
  - destruct (heap st !! r), exc; reflexivity.
Qed.

Lemma credentials_exec_cmds exc cs st :
  credentials (exec_cmds exc cs st) = credentials st.
Proof.
  revert st. induction cs as [|c cs IH]; intros st; simpl; [reflexivity|].
  rewrite IH. destruct c; simpl; try reflexivity.
  - destruct (heap st !! r); reflexivity.
  - destruct (heap st !! r), exc; reflexivity.
Qed.

Lemma trace_exec_cmds exc cs st :
  forallb is_plain cs = true ->
  trace (exec_cmds exc cs st) = trace st ++ flat_map cmd_events cs.
Proof.
  revert st. induction cs as [|c cs IH]; intros st H; simpl.
  - rewrite app_nil_r. reflexivity.
  - simpl in H. apply andb_true_iff in H as [Hc Hcs].
    rewrite (IH _ Hcs). destruct c; simpl in *; try discriminate;
      rewrite <- ?app_assoc; try reflexivity.
    destruct (heap st !! r); reflexivity.
Qed.

Lemma threads_exec_cmds_plain exc cs st :
  forallb is_plain cs = true ->
  threads (exec_cmds exc cs st) = threads st.
Proof.
  revert st. induction cs as [|c cs IH]; intros st H; simpl; [reflexivity|].
  simpl in H. apply andb_true_iff in H as [Hc Hcs].
  rewrite (IH _ Hcs). destruct c; simpl in *; try discriminate; try reflexivity.
  destruct (heap st !! r); reflexivity.
Qed.

Lemma cmd_heap_lookup_is_Some cs (h : list Video) r :
  is_Some (h !! r) ->
  is_Some (fold_left (fun h c => cmd_heap c h) cs h !! r).
Proof.
  revert h. induction cs as [|c cs IH]; intros h H; simpl; [exact H|].
  apply IH. destruct c; simpl; try exact H.
  destruct (decide (r0 = r)) as [->|Hne].
  - rewrite list_lookup_alter_eq. destruct H as [v ->]. eexists; reflexivity.
  - rewrite list_lookup_alter_ne by exact Hne. exact H.
Qed.

Lemma upload_body_plain r : forallb is_plain (upload_body r) = true.
Proof. reflexivity. Qed.

Lemma upload_body_length r : length (upload_body r) = 310.
Proof. reflexivity. Qed.

(** The dicts after the [try] block of an upload ran to its end. *)
Lemma upload_body_heap r v (h : list Video) :
  h !! r = Some v ->
  fold_left (fun h c => cmd_heap c h) (upload_body r) h
  = <[r := set_status "completed" v]> h.
Proof.
  intros Hv.
  change (fold_left (fun h c => cmd_heap c h) (upload_body r) h)
    with (alter (set_status "completed") r (alter (set_status "uploading") r h)).
  apply list_eq. intros i. destruct (decide (i = r)) as [->|Hne].
  - rewrite !list_lookup_alter_eq, Hv.
    rewrite list_lookup_insert_eq by (eapply lookup_lt_Some; eauto).
    reflexivity.
  - rewrite !list_lookup_alter_ne, list_lookup_insert_ne by congruence.
    reflexivity.
Qed.

(** ** A run of one upload thread *)

Lemma run_app s1 s2 st : run (s1 ++ s2) st = run s2 (run s1 st).
Proof. apply fold_left_app. Qed.

(** A thread runs a block of plain calls to the end. *)
Lemma thread_block_completes tid b h exc st :
  threads st !! tid = Some (mkThread b h exc) ->
  forallb is_plain b = true ->
  let st1 := run (quiet tid (length b)) st in
  heap st1 = fold_left (fun hp c => cmd_heap c hp) b (heap st)
  /\ trace st1 = trace st ++ flat_map cmd_events b
  /\ threads st1 = <[tid := mkThread [] h exc]> (threads st)
  /\ videos st1 = videos st
  /\ credentials st1 = credentials st.
Proof.
  intros Ht Hb st1. subst st1.
  rewrite (run_quiet tid b [] h exc st) by (rewrite app_nil_r; exact Ht).
  cbn [heap trace threads videos credentials set_threads].
  rewrite heap_exec_cmds, (trace_exec_cmds _ _ _ Hb), (threads_exec_cmds_plain _ _ _ Hb).
  rewrite videos_exec_cmds, credentials_exec_cmds.
  repeat split; reflexivity.
Qed.

(** The first step of an upload thread writes ['uploading'] into the dict. *)
Lemma upload_thread_first_step tid r v fault st :
  threads st !! tid = Some (upload_thread r) ->
  heap st !! r = Some v ->
  heap (step_thread tid fault st) = <[r := set_status "uploading" v]> (heap st).
Proof.
  intros Ht Hv.
  assert (Hb : upload_thread r
               = mkThread (CSetStatus r "uploading" :: tl (upload_body r))
                          (Some (upload_handler r)) None) by reflexivity.
  rewrite Hb in Ht. clear Hb.
  unfold step_thread. rewrite Ht.
  cbn [body handler caught can_raise exec_cmd heap set_heap set_threads].
  apply list_eq. intros i. destruct (decide (i = r)) as [->|Hne].
  - rewrite list_lookup_alter_eq, Hv.
    rewrite list_lookup_insert_eq by (eapply lookup_lt_Some; eauto). reflexivity.
  - rewrite list_lookup_alter_ne, list_lookup_insert_ne by congruence. reflexivity.
Qed.

(** When the call number [k] of a guarded block raises, the handler of an
    upload runs and leaves ['failed'] in the dict. *)
Lemma guarded_block_fails tid r b k c e st :
  threads st !! tid = Some (mkThread b (Some (upload_handler r)) None) ->
  is_Some (heap st !! r) ->
  b !! k = Some c ->
  can_raise c = true ->
  status_of (run (quiet tid k ++ [(tid, Some e)] ++ quiet tid 3) st) r
  = Some "failed".
Proof.
  intros Ht Hv Hk Hc.
  assert (Hlen : k < length b) by (eapply lookup_lt_Some; eauto).
  assert (Hsplit : b = take k b ++ c :: drop (S k) b)
    by (symmetry; apply take_drop_middle, Hk).
  assert (Htid : tid < length (threads st)) by (eapply lookup_lt_Some; eauto).
  rewrite !run_app.
  (* the first k calls *)
  replace (quiet tid k) with (quiet tid (length (take k b)))
    by (rewrite length_take; f_equal; lia).
  rewrite (run_quiet tid (take k b) (c :: drop (S k) b)
             (Some (upload_handler r)) None st)
    by (rewrite <- Hsplit; exact Ht).
  set (sk := exec_cmds None (take k b) st).
  assert (Hsk : tid < length (threads sk))
    by (pose proof (threads_exec_cmds_length None (take k b) st);
        unfold sk; lia).
  (* the call that raises *)
  change (run [(tid, Some e)] ?s) with (step_thread tid (Some e) s).
  rewrite (step_thread_raise tid c (drop (S k) b)
             (Some (upload_handler r)) None e)
    by (try exact Hc; cbn [threads set_threads];
        apply list_lookup_insert_eq; exact Hsk).
  cbn [threads set_threads raise_in handler]. rewrite list_insert_insert_eq.
  (* the handler *)
  change (quiet tid 3) with (quiet tid (length (upload_handler r))).
  rewrite (run_quiet tid (upload_handler r) [] None (Some e))
    by (cbn [threads set_threads];
        rewrite list_lookup_insert_eq by exact Hsk; reflexivity).
  unfold status_of. cbn [heap set_threads].
  rewrite heap_exec_cmds. cbn [heap set_threads]. unfold sk.
  rewrite heap_exec_cmds.
  cbn [upload_handler fold_left cmd_heap].
  rewrite list_lookup_alter_eq.
  destruct (cmd_heap_lookup_is_Some (take k b) (heap st) r Hv) as [v' ->].
  reflexivity.
Qed.

Example posix_stem_examples :
  map PosixPath.stem ["/v/clip.mp4"; "a.b.c"; ".bashrc"; "dir/"; "x."]
  = ["clip"; "a.b"; ".bashrc"; "dir"; "x."].
Proof. reflexivity. Qed.

Example one_clip_heap : heap one_clip = [clip] /\ videos one_clip = [0].
Proof. split; reflexivity. Qed.

(** ** C5: the upload of one video is a simulation *)

Lemma upload_events r :
  flat_map cmd_events (upload_body r)
  = EvRefresh :: flat_map (fun i => [EvSleep 50; EvProgress i; EvIdle]) (seq 0 101)
    ++ [EvRefresh; EvProgress 0].
Proof. reflexivity. Qed.

(** C5.  [upload_single_video] only starts a thread that is fixed by the
    video reference: it reads neither the credentials nor the platforms of
    the video.  The thread first writes ['uploading'].  When no call raises it
    sleeps 101 times 50 ms, moves the progress bar from 0 to 100 hundredths
    in steps of one, resets it, opens no file and ends with ['completed'];
    when a call raises, the handler leaves ['failed']. *)
Theorem upload_single_video_simulation st r v k c e :
  heap st !! r = Some v ->
  upload_body r !! k = Some c ->
  can_raise c = true ->
  let tid := length (threads st) in
  let st0 := upload_single_video r st in
  let st1 := run (quiet tid (length (upload_body r))) st0 in
  let st2 := run (quiet tid k ++ [(tid, Some e)] ++ quiet tid 3) st0 in
  heap st0 = heap st
  /\ threads st0 = threads st ++ [upload_thread r]
  /\ status_of (step_thread tid None st0) r = Some "uploading"
  /\ status_of st1 r = Some "completed"
  /\ heap st1 = <[r := set_status "completed" v]> (heap st)
  /\ body <$> threads st1 !! tid = Some []
  /\ events_since st0 st1
     = EvRefresh :: flat_map (fun i => [EvSleep 50; EvProgress i; EvIdle]) (seq 0 101)
       ++ [EvRefresh; EvProgress 0]
  /\ progress_values (events_since st0 st1) = seq 0 101 ++ [0]
  /\ sleep_total (events_since st0 st1) = 101 * 50
  /\ existsb is_external_io (events_since st st1) = false
  /\ credentials st1 = credentials st
  /\ videos st1 = videos st
  /\ status_of st2 r = Some "failed".
Proof.
  intros Hv Hk Hc tid st0 st1 st2.
  assert (Ht : threads st0 !! tid = Some (upload_thread r)).
  { unfold st0, tid, upload_single_video, start_thread. cbn [threads log set_threads].
    rewrite lookup_app_r by lia. rewrite Nat.sub_diag. reflexivity. }
  assert (Hv0 : heap st0 !! r = Some v) by exact Hv.
  destruct (thread_block_completes tid (upload_body r) (Some (upload_handler r)) None
              st0 Ht (upload_body_plain r)) as (Hh & Htr & Hth & Hvs & Hcr).
  fold st1 in Hh, Htr, Hth, Hvs, Hcr.
  rewrite (upload_body_heap r v _ Hv0) in Hh.
  assert (Hev : events_since st0 st1 = flat_map cmd_events (upload_body r)).
  { unfold events_since. rewrite Htr. apply drop_app_length. }
  assert (Hev' : events_since st st1
                 = EvThreadStart tid :: flat_map cmd_events (upload_body r)).
  { unfold events_since. rewrite Htr. unfold st0, upload_single_video, start_thread.
    cbn [trace log set_threads]. rewrite <- app_assoc. apply drop_app_length. }
  repeat match goal with |- _ /\ _ => split end.
  - reflexivity.
  - reflexivity.
  - unfold status_of. rewrite (upload_thread_first_step tid r v None st0 Ht Hv0).
    rewrite list_lookup_insert_eq by (eapply lookup_lt_Some; eauto). reflexivity.
  - unfold status_of. rewrite Hh.
    rewrite list_lookup_insert_eq by (eapply lookup_lt_Some; eauto). reflexivity.
  - exact Hh.
  - rewrite Hth. rewrite list_lookup_insert_eq by (eapply lookup_lt_Some; eauto).
    reflexivity.
  - rewrite Hev. apply upload_events.
  - rewrite Hev. reflexivity.
  - rewrite Hev. reflexivity.
  - rewrite Hev'. reflexivity.
  - exact Hcr.
  - exact Hvs.
  - apply (guarded_block_fails tid r (upload_body r) k c e st0 Ht); eauto.
Qed.

Lemma upload_single_video_simulation_witness :
  heap one_clip !! 0 = Some clip
  /\ upload_body 0 !! 1 = Some CRefresh
  /\ status_of (run (quiet 0 310) (upload_single_video 0 one_clip)) 0 = Some "completed"
  /\ status_of (run (quiet 0 1 ++ [(0, Some TclError)] ++ quiet 0 3)
                    (upload_single_video 0 one_clip)) 0 = Some "failed".
Proof.
  pose proof (upload_single_video_simulation one_clip 0 clip 1 CRefresh TclError
                eq_refl eq_refl eq_refl) as H.
  cbv zeta in H.
  split; [reflexivity|]. split; [reflexivity|].
  split; [apply H | apply H].
Defined.

(** ** Adding files *)

Section AddLemmas.

Variable path_name : string -> string.
Variable path_stem : string -> string.

#[local] Abbreviation new_video := (new_video path_name path_stem).
#[local] Abbreviation add_loop := (add_loop path_name path_stem).
#[local] Abbreviation add_videos := (add_videos path_name path_stem).

(** The loop appends one dict per file and queues a reference to each. *)
Lemma add_loop_spec files st :
  heap (add_loop files st)
  = heap st ++ imap (fun i f => new_video (length (videos st) + i) f) files
  /\ videos (add_loop files st)
     = videos st ++ seq (length (heap st)) (length files).
Proof.
  revert st. induction files as [|f files IH]; intros st.
  - simpl. rewrite !app_nil_r. split; reflexivity.
  - change (add_loop (f :: files) st)
      with (add_loop files (append_video (new_video (length (videos st)) f) st)).
    destruct (IH (append_video (new_video (length (videos st)) f) st)) as [Hh Hv].
    rewrite Hh, Hv. cbn [append_video heap videos set_videos set_heap].
    rewrite !length_app, <- !app_assoc. simpl.
    rewrite Nat.add_0_r, !Nat.add_1_r. split; [|reflexivity].
    do 2 f_equal. apply imap_ext. intros i x _. simpl.
    f_equal. lia.
Qed.

Lemma heap_add_videos files st :
  heap (add_videos files st)
  = heap st ++ imap (fun i f => new_video (length (videos st) + i) f) files.
Proof. apply add_loop_spec. Qed.

Lemma videos_add_videos files st :
  videos (add_videos files st) = videos st ++ seq (length (heap st)) (length files).
Proof. apply add_loop_spec. Qed.

(** C6.  [add_videos] queues one new job per file, in the order of the
    files; each new job carries the file's path, has status ['pending']
    and the platform list [['youtube']]; the dicts that existed before
    are the same. *)
Theorem add_videos_new_jobs files st :
  let st' := add_videos files st in
  let new_refs := seq (length (heap st)) (length files) in
  videos st' = videos st ++ new_refs
  /\ Forall2 (fun r f => exists v, heap st' !! r = Some v
                                   /\ path v = f
                                   /\ status v = "pending"
                                   /\ platforms v = ["youtube"])
             new_refs files
  /\ take (length (heap st)) (heap st') = heap st.
Proof.
  intros st' new_refs. subst st' new_refs.
  split; [apply videos_add_videos|]. rewrite heap_add_videos. split.
  - apply Forall2_same_length_lookup_2; [apply length_seq|].
    intros i r f Hr Hf. apply lookup_seq in Hr as [-> Hi].
    rewrite lookup_app_r by lia.
    replace (length (heap st) + i - length (heap st)) with i by lia.
    rewrite list_lookup_imap, Hf. simpl.
    eexists. split; [reflexivity|]. repeat split.
  - rewrite take_app_length. reflexivity.
Qed.

End AddLemmas.

(** ** C4: identifiers *)

(** C4, on the input where it fails.  The identifier is the length of the
    queue plus one, so after a removal the next file gets an identifier
    that is already in use: here the second and the third file both carry
    identifier 2 while both are queued. *)
Theorem add_after_remove_reuses_id :
  let st1 := add_videos PosixPath.name PosixPath.stem ["/v/a.mp4"; "/v/b.mp4"] initial_app in
  let st2 := after_callback (remove_video true 0 st1) in
  let st3 := add_videos PosixPath.name PosixPath.stem ["/v/c.mp4"] st2 in
  videos st3 = [1; 2]
  /\ (fun v => (id v, path v)) <$> heap st3 !! 1 = Some (2, "/v/b.mp4")
  /\ (fun v => (id v, path v)) <$> heap st3 !! 2 = Some (2, "/v/c.mp4").
Proof. repeat split. Qed.

(** Without a removal in between, the identifiers count up from the
    length of the queue. *)
Lemma add_videos_ids path_name path_stem files st :
  map id (drop (length (heap st)) (heap (add_videos path_name path_stem files st)))
  = seq (length (videos st) + 1) (length files).
Proof.
  rewrite heap_add_videos, drop_app_length.
  generalize (length (videos st)). induction files as [|f files IH]; intros n.
  - reflexivity.
  - simpl. rewrite Nat.add_0_r. f_equal.
    change (S (n + 1)) with (S n + 1).
    rewrite <- (IH (S n)). f_equal. apply imap_ext. intros i x _. simpl.
    f_equal. lia.
Qed.

(** ** C9: a missing configuration file *)

(** C9.  When [gui_config.json] does not exist, [load_config] returns
    without raising and leaves every field but the trace as it was; at start
    up the credentials are the empty defaults of [__init__]. *)
Theorem load_config_absent st :
  load_config FileAbsent st = Done (log (EvOpen "gui_config.json" "r") st)
  /\ credentials (after_callback (load_config FileAbsent st)) = credentials st
  /\ (exists app, startup FileAbsent = Done app
                  /\ credentials app = default_credentials
                  /\ videos app = []).
Proof.
  repeat split. eexists. repeat split.
Qed.

Example load_config_present :
  load_config
    (FileJson (JObj [("credentials",
                      JObj [("instagram", JObj [("username", JStr "me")])])]))
    initial_app
  = Done (set_credentials
            [(JStr "youtube",
              JObj [("client_id", JStr ""); ("client_secret", JStr "");
                    ("authenticated", JBool false)]);
             (JStr "instagram", JObj [("username", JStr "me")])]
            (log (EvOpen "gui_config.json" "r") initial_app)).
Proof. reflexivity. Qed.

Example load_config_not_an_object :
  exists st, load_config (FileJson (JArr [])) initial_app = Raised AttributeError st.
Proof. eexists. reflexivity. Qed.

(** ** C10 and C3: saving the form *)

Example editing_clip_form :
  editor editing_clip
  = FormShown {| title_entry := "clip";
                 desc_text := "";
                 tags_entry := "";
                 platform_vars := [("youtube", true); ("instagram", false);
                                   ("tiktok", false)];
                 privacy_var := "public" |}.
Proof. reflexivity. Qed.

Lemma save_video_changes_shown st r f :
  editor st = FormShown f ->
  save_video_changes r st
  = update_status "Changes saved"
      (refresh_video_list (set_heap (alter (video_update f) r (heap st)) st)).
Proof. intros H. unfold save_video_changes, read_form. rewrite H. reflexivity. Qed.

(** C10.  A save that reads the form changes, in the dict of the job,
    nothing but title, description, tags, platforms and privacy: id, path,
    name and status stay; every other dict, the queue, the threads and the
    credentials stay as they are. *)
Theorem save_video_changes_frame st r v f :
  heap st !! r = Some v ->
  editor st = FormShown f ->
  let st' := save_video_changes r st in
  (exists v', heap st' !! r = Some v'
              /\ id v' = id v /\ path v' = path v /\ name v' = name v
              /\ status v' = status v)
  /\ (forall r', r' <> r -> heap st' !! r' = heap st !! r')
  /\ length (heap st') = length (heap st)
  /\ videos st' = videos st
  /\ threads st' = threads st
  /\ credentials st' = credentials st.
Proof.
  intros Hv He st'. subst st'. rewrite (save_video_changes_shown st r f He).
  cbn [heap videos threads credentials update_status refresh_video_list log set_heap].
  split; [|split; [|split]].
  - exists (video_update f v). rewrite list_lookup_alter_eq, Hv. repeat split.
  - intros r' Hne. apply list_lookup_alter_ne. congruence.
  - apply length_alter.
  - repeat split.
Qed.

Lemma save_video_changes_frame_witness :
  heap editing_clip !! 0 = Some clip
  /\ editor (edit_form typed_form editing_clip) = FormShown typed_form
  /\ (exists v', heap (save_video_changes 0 (edit_form typed_form editing_clip)) !! 0
                 = Some v'
                 /\ id v' = 1 /\ path v' = "/videos/clip.mp4" /\ name v' = "clip.mp4"
                 /\ status v' = "pending").
Proof.
  split; [reflexivity|]. split; [reflexivity|].
  exact (proj1 (save_video_changes_frame (edit_form typed_form editing_clip) 0 clip
                  typed_form eq_refl eq_refl)).
Defined.

(** C3 as stated fails: the clip is being uploaded, and a save still
    replaces its title, description, tags, platforms and privacy without
    any error dialog. *)
Lemma save_while_uploading_changes_metadata :
  let st := edit_form typed_form uploading_clip in
  status_of st 0 = Some "uploading"
  /\ heap st !! 0 = Some (set_status "uploading" clip)
  /\ heap (save_video_changes 0 st) !! 0
     = Some {| id := 1;
               path := "/videos/clip.mp4";
               name := "clip.mp4";
               title := "renamed";
               description := "new text";
               tags := ["cat"; "dog"; "cat"];
               platforms := ["instagram"];
               privacy := "private";
               status := "uploading" |}
  /\ events_since st (save_video_changes 0 st) = [EvRefresh].
Proof. repeat split. Qed.

(** C3, amended.  [save_video_changes] does not look at the status.  For
    a job of any status, when the form can be read the save stores the
    form's title, description, parsed tags, checked platforms and privacy
    and shows no error; when the widgets cannot be read, the exception is
    shown in a dialog and no dict changes. *)
Theorem save_video_changes_any_status st r v :
  heap st !! r = Some v ->
  let st' := save_video_changes r st in
  match editor st with
  | FormShown f =>
      (exists v', heap st' !! r = Some v'
                  /\ title v' = title_entry f
                  /\ description v' = desc_text f
                  /\ tags v' = parse_tags (tags_entry f)
                  /\ platforms v' = checked_platforms (platform_vars f)
                  /\ privacy v' = privacy_var f
                  /\ status v' = status v)
      /\ events_since st st' = [EvRefresh]
      /\ status_label st' = "Changes saved"
  | NoForm | FormDestroyed =>
      heap st' = heap st
      /\ exists e, events_since st st' = [EvShowError "Error" "Failed to save changes: " e]
  end.
Proof.
  intros Hv st'. subst st'. destruct (editor st) as [|f|] eqn:He.
  - unfold save_video_changes, read_form, events_since. rewrite He.
    split; [reflexivity|]. eexists. cbn [trace log]. apply drop_app_length.
  - rewrite (save_video_changes_shown st r f He). split; [|split].
    + exists (video_update f v).
      cbn [heap update_status refresh_video_list log set_heap].
      rewrite list_lookup_alter_eq, Hv. repeat split.
    + unfold events_since. cbn [trace update_status refresh_video_list log set_heap].
      apply drop_app_length.
    + reflexivity.
  - unfold save_video_changes, read_form, events_since. rewrite He.
    split; [reflexivity|]. eexists. cbn [trace log]. apply drop_app_length.
Qed.

Lemma save_video_changes_any_status_witness :
  heap (edit_form typed_form uploading_clip) !! 0 = Some (set_status "uploading" clip)
  /\ (exists v', heap (save_video_changes 0 (edit_form typed_form uploading_clip)) !! 0
                 = Some v'
                 /\ title v' = "renamed"
                 /\ description v' = "new text"
                 /\ tags v' = parse_tags "cat, dog, cat"
                 /\ platforms v' = checked_platforms (platform_vars typed_form)
                 /\ privacy v' = "private"
                 /\ status v' = "uploading").
Proof.
  split; [reflexivity|].
  exact (proj1 (save_video_changes_any_status (edit_form typed_form uploading_clip) 0
                  (set_status "uploading" clip) eq_refl)).
Defined.

(** ** C7: the tags that a save stores *)

(** C7 as stated fails: a tag typed twice is stored twice. *)
Lemma save_keeps_duplicate_tags :
  let st := save_video_changes 0 (edit_form typed_form editing_clip) in
  tags_entry typed_form = "cat, dog, cat"
  /\ tags <$> heap st !! 0 = Some ["cat"; "dog"; "cat"]
  /\ ~ NoDup ["cat"; "dog"; "cat"].
Proof.
  split; [reflexivity|]. split; [reflexivity|].
  intros H. apply NoDup_cons in H as [H _]. apply H. repeat constructor.
Qed.

(** C7, amended.  After every save that reads the form, whatever the text
    of the tags entry, the stored tags are the trimmed, non-empty pieces of
    the comma-separated text in their order, and nothing is removed for
    being repeated.  Each stored tag is non-empty, begins and ends with a
    character that is no white space, and has no comma; the text is its
    pieces joined by commas, and the stored tags are these pieces, trimmed,
    without the empty ones; for every list of clean tags, repeats included,
    the text in which they are joined by a comma and a space is stored as
    exactly that list. *)
Theorem save_video_changes_tags st r v f :
  heap st !! r = Some v ->
  editor st = FormShown f ->
  exists ts,
    tags <$> heap (save_video_changes r st) !! r = Some ts
    /\ Forall (fun t => is_clean_tag t = true
                        /\ t <> ""
                        /\ starts_clean t = true
                        /\ ends_clean t = true
                        /\ PyStr.contains "," t = false) ts
    /\ (exists pieces,
          Forall (fun p => PyStr.contains "," p = false) pieces
          /\ tags_entry f = PyStr.join "," pieces)
    /\ (forall pieces,
          Forall (fun p => PyStr.contains "," p = false) pieces ->
          tags_entry f = PyStr.join "," pieces ->
          ts = List.filter PyStr.truthy (map PyStr.strip pieces))
    /\ (forall ts',
          Forall (fun t => is_clean_tag t = true) ts' ->
          tags_entry f = PyStr.join ", " ts' ->
          ts = ts').
Proof.
  intros Hv He. exists (parse_tags (tags_entry f)).
  split; [|split; [|split; [|split]]].
  - rewrite (save_video_changes_shown st r f He).
    cbn [heap update_status refresh_video_list log set_heap].
    rewrite list_lookup_alter_eq, Hv. reflexivity.
  - eapply Forall_impl; [apply parse_tags_clean|].
    intros t Ht. split; [exact Ht | apply clean_tag_ends, Ht].
  - exists (PyStr.split "," (tags_entry f)).
    split; [apply split_pieces_without_sep | symmetry; apply join_split].
  - intros pieces Hp ->. apply parse_tags_pieces, Hp.
  - intros ts' Hts ->. apply parse_tags_join, Hts.
Qed.

Lemma save_video_changes_tags_witness :
  heap (edit_form typed_form editing_clip) !! 0 = Some clip
  /\ editor (edit_form typed_form editing_clip) = FormShown typed_form
  /\ tags_entry typed_form = PyStr.join ", " ["cat"; "dog"; "cat"]
  /\ tags <$> heap (save_video_changes 0 (edit_form typed_form editing_clip)) !! 0
     = Some ["cat"; "dog"; "cat"].
Proof.
  split; [reflexivity|]. split; [reflexivity|]. split; [reflexivity|].
  destruct (save_video_changes_tags (edit_form typed_form editing_clip) 0
              clip typed_form eq_refl eq_refl) as (ts & Hs & _ & _ & _ & Hj).
  rewrite Hs. f_equal. apply Hj; [repeat constructor | reflexivity].
Defined.

(** ** C2: removing a job *)

Lemma video_eqb_spec st x y :
  video_eqb st x y = true <-> x = y \/ heap st !! x = heap st !! y.
Proof.
  unfold video_eqb. rewrite orb_true_iff, !bool_decide_eq_true. reflexivity.
Qed.

(** [l.remove(x)] drops the first item that is equal to [x]. *)
Lemma list_remove_first eqb l x :
  x ∈ l -> eqb x = true ->
  exists l1 y l2, list_remove eqb l = Some (l1 ++ l2)
                  /\ l = l1 ++ y :: l2
                  /\ eqb y = true
                  /\ Forall (fun z => eqb z = false) l1.
Proof.
  intros Hin Hx. induction l as [|y l IH]; [inversion Hin|].
  simpl. destruct (eqb y) eqn:Hy.
  - exists [], y, l. repeat split; try assumption. constructor.
  - assert (Hin' : x ∈ l).
    { apply elem_of_cons in Hin as [->|Hin]; [congruence | exact Hin]. }
    destruct (IH Hin') as (l1 & z & l2 & Hr & Hl & Hz & Hl1).
    rewrite Hr. exists (y :: l1), z, l2. repeat split.
    + simpl. rewrite Hl. reflexivity.
    + exact Hz.
    + constructor; assumption.
Qed.

Lemma videos_show_default st : videos (show_default_editor_message st) = videos st.
Proof. unfold show_default_editor_message. destruct (editor st); reflexivity. Qed.

Lemma heap_show_default st : heap (show_default_editor_message st) = heap st.
Proof. unfold show_default_editor_message. destruct (editor st); reflexivity. Qed.

Lemma threads_show_default st : threads (show_default_editor_message st) = threads st.
Proof. unfold show_default_editor_message. destruct (editor st); reflexivity. Qed.

(** C2 as stated fails: the clip is being uploaded, and a confirmed
    remove takes it out of the queue without raising. *)
Lemma remove_while_uploading_succeeds :
  status_of uploading_clip 0 = Some "uploading"
  /\ videos uploading_clip = [0]
  /\ exists st', remove_video true 0 uploading_clip = Done st'
                 /\ videos st' = []
                 /\ body <$> threads st' !! 0 = Some (tl (upload_body 0)).
Proof.
  split; [reflexivity|]. split; [reflexivity|].
  eexists. split; [reflexivity|]. split; reflexivity.
Qed.

(** C2, amended.  [remove_video] does not look at the status.  For a
    queued job of any status, a confirmed remove returns without raising and
    drops from the queue the first entry whose dict is equal to the job's,
    which is how [list.remove] finds it; the dicts and the running threads
    are left as they are.  When the user declines, the queue is unchanged. *)
Theorem remove_video_any_status st r v :
  heap st !! r = Some v ->
  r ∈ videos st ->
  (exists st' l1 r' l2,
      remove_video true r st = Done st'
      /\ videos st = l1 ++ r' :: l2
      /\ videos st' = l1 ++ l2
      /\ heap st !! r' = Some v
      /\ Forall (fun x => x <> r /\ heap st !! x <> Some v) l1
      /\ heap st' = heap st
      /\ threads st' = threads st)
  /\ (exists st', remove_video false r st = Done st'
                  /\ videos st' = videos st
                  /\ heap st' = heap st).
Proof.
  intros Hv Hin. split.
  - destruct (list_remove_first (fun y => video_eqb st y r) (videos st) r Hin)
      as (l1 & r' & l2 & Hr & Hl & Hr' & Hl1).
    { apply video_eqb_spec. left. reflexivity. }
    unfold remove_video. rewrite Hv. cbn [videos log]. rewrite Hr.
    eexists _, l1, r', l2. split; [reflexivity|]. split; [exact Hl|].
    cbn [videos heap threads update_status].
    rewrite videos_show_default, heap_show_default, threads_show_default.
    split; [|split; [|split; [|split]]].
    + reflexivity.
    + apply video_eqb_spec in Hr' as [->|Hr']; [exact Hv | congruence].
    + eapply Forall_impl; [exact Hl1|]. intros x Hx. cbv beta in Hx.
      split.
      * intros ->. rewrite (proj2 (video_eqb_spec st r r)) in Hx by (left; reflexivity).
        discriminate.
      * intros Hxv.
        rewrite (proj2 (video_eqb_spec st x r)) in Hx by (right; congruence).
        discriminate.
    + reflexivity.
    + reflexivity.
  - unfold remove_video. rewrite Hv. eexists. repeat split.
Qed.

Lemma remove_video_any_status_witness :
  heap uploading_clip !! 0 = Some (set_status "uploading" clip)
  /\ 0 ∈ videos uploading_clip
  /\ (exists st', remove_video false 0 uploading_clip = Done st'
                  /\ videos st' = videos uploading_clip
                  /\ heap st' = heap uploading_clip).
Proof.
  assert (Hin : 0 ∈ videos uploading_clip) by (apply list_elem_of_here).
  split; [reflexivity|]. split; [exact Hin|].
  exact (proj2 (remove_video_any_status uploading_clip 0 (set_status "uploading" clip)
                  eq_refl Hin)).
Defined.

(** ** C1: what changes a status *)

Section StatusLemmas.

Variable path_name : string -> string.
Variable path_stem : string -> string.

(** No callback of the main thread writes a status. *)
Lemma exec_op_status o st r v :
  heap st !! r = Some v ->
  status_of (exec_op path_name path_stem o st) r = Some (status v).
Proof.
  intros Hv. unfold status_of. destruct o as [files|r0|f|r0|r0 confirm|r0|];
    cbn [exec_op after_callback].
  - rewrite heap_add_videos. erewrite lookup_app_l_Some by exact Hv. reflexivity.
  - unfold select_video. destruct (heap st !! r0); simpl; rewrite Hv; reflexivity.
  - unfold edit_form. destruct (editor st); simpl; rewrite Hv; reflexivity.
  - unfold save_video_changes. destruct (read_form st) as [e|f]; simpl.
    + rewrite Hv. reflexivity.
    + destruct (decide (r0 = r)) as [->|Hne].
      * rewrite list_lookup_alter_eq, Hv. reflexivity.
      * rewrite list_lookup_alter_ne, Hv by exact Hne. reflexivity.
  - unfold remove_video. destruct (heap st !! r0); [|simpl; rewrite Hv; reflexivity].
    destruct confirm; [|simpl; rewrite Hv; reflexivity].
    destruct (list_remove _ _); simpl; rewrite ?heap_show_default; simpl;
      rewrite Hv; reflexivity.
  - simpl. rewrite Hv. reflexivity.
  - unfold upload_all_videos. destruct (List.filter _ _); simpl; rewrite Hv; reflexivity.
Qed.

End StatusLemmas.

(** C1 as stated fails: "Upload Now" on a job that is ['completed'], or
    ['failed'], puts it back to ['uploading']. *)
Lemma upload_again_regresses_status :
  status_of completed_clip 0 = Some "completed"
  /\ status_of (step_thread 1 None (upload_single_video 0 completed_clip)) 0
     = Some "uploading"
  /\ status_of failed_clip 0 = Some "failed"
  /\ status_of (step_thread 1 None (upload_single_video 0 failed_clip)) 0
     = Some "uploading".
Proof. repeat split; vm_compute; reflexivity. Qed.

(** ** C8: uploading all pending videos *)

(** The loop of [upload_all_thread] starts one upload thread per video, in
    order, and sleeps one second after each start. *)
Lemma upload_all_body_exec l st :
  let st' := exec_cmds None (upload_all_body l) st in
  heap st' = heap st
  /\ videos st' = videos st
  /\ threads st' = threads st ++ map upload_thread l
  /\ trace st' = trace st
                 ++ flat_map (fun tid => [EvThreadStart tid; EvSleep 1000])
                             (seq (length (threads st)) (length l)).
Proof.
  revert st. induction l as [|r l IH]; intros st.
  - simpl. rewrite !app_nil_r. repeat split.
  - change (exec_cmds None (upload_all_body (r :: l)) st)
      with (exec_cmds None (upload_all_body l)
              (log (EvSleep 1000) (upload_single_video r st))).
    destruct (IH (log (EvSleep 1000) (upload_single_video r st)))
      as (Hh & Hv & Ht & Htr).
    cbv zeta. rewrite Hh, Hv, Ht, Htr.
    cbn [heap videos threads trace log upload_single_video start_thread set_threads].
    rewrite length_app, Nat.add_1_r, <- !app_assoc. repeat split.
Qed.

Lemma upload_body_within (P : ref -> Prop) r : P r -> writes_within P (upload_body r).
Proof.
  intros Hr. unfold writes_within, upload_body.
  apply Forall_app. split; [repeat constructor; exact Hr|].
  apply Forall_app. split; [|repeat constructor; exact Hr].
  apply List.Forall_forall. intros c Hc.
  apply in_flat_map in Hc as (i & _ & Hc). simpl in Hc.
  destruct Hc as [<-|[<-|[<-|[]]]]; exact I.
Qed.

Lemma upload_thread_within (P : ref -> Prop) r : P r -> thread_within P (upload_thread r).
Proof.
  intros Hr. split; [apply upload_body_within, Hr|].
  cbn [handler upload_thread]. repeat constructor. exact Hr.
Qed.

(** A step of a thread whose blocks write within [P] leaves every other
    dict as it is, and so do the threads it starts. *)
Lemma step_thread_within (P : ref -> Prop) n tid fault st :
  n <= tid ->
  Forall (thread_within P) (drop n (threads st)) ->
  Forall (thread_within P) (drop n (threads (step_thread tid fault st)))
  /\ forall r, ~ P r -> heap (step_thread tid fault st) !! r = heap st !! r.
Proof.
  intros Hn Hall. unfold step_thread.
  destruct (threads st !! tid) as [t|] eqn:Ht; [|split; [exact Hall | reflexivity]].
  assert (Hlt : tid < length (threads st)) by (eapply lookup_lt_Some; eauto).
  assert (Hw : thread_within P t).
  { eapply (Forall_lookup_1 _ _ (tid - n) _ Hall).
    rewrite lookup_drop. replace (n + (tid - n)) with tid by lia. exact Ht. }
  destruct (body t) as [|c rest] eqn:Hb; [split; [exact Hall | reflexivity]|].
  destruct Hw as [Hbody Hhandler]. rewrite Hb in Hbody.
  apply Forall_cons in Hbody as [Hc Hrest].
  destruct (if can_raise c then fault else None) as [e|].
  - split; [|reflexivity]. cbn [threads set_threads].
    rewrite drop_insert_ge by exact Hn. apply Forall_insert; [exact Hall|].
    unfold raise_in. destruct (handler t) as [h|]; split; simpl;
      try exact Hhandler; try exact I; constructor.
  - cbv zeta. cbn [threads heap set_threads]. split.
    + rewrite drop_insert_ge by exact Hn. apply Forall_insert.
      * destruct c; simpl; try exact Hall.
        -- destruct (heap st !! r); exact Hall.
        -- destruct (heap st !! r), (caught t); exact Hall.
        -- rewrite drop_app_le by lia. apply Forall_app. split; [exact Hall|].
           repeat constructor; try (apply upload_body_within; exact Hc); exact Hc.
      * split; [exact Hrest | exact Hhandler].
    + intros r' Hr'. rewrite heap_exec_cmd. destruct c; simpl; try reflexivity.
      apply list_lookup_alter_ne. intros ->. exact (Hr' Hc).
Qed.

Lemma run_within (P : ref -> Prop) n sched st :
  Forall (fun x => n <= fst x) sched ->
  Forall (thread_within P) (drop n (threads st)) ->
  forall r, ~ P r -> heap (run sched st) !! r = heap st !! r.
Proof.
  intros Hs. revert st. induction Hs as [|[tid fault] sched Hn _ IH]; intros st Hall r Hr.
  - reflexivity.
  - change (run ((tid, fault) :: sched) st) with (run sched (step_thread tid fault st)).
    destruct (step_thread_within P n tid fault st Hn Hall) as [Hall' Hheap].
    rewrite (IH _ Hall' r Hr). apply Hheap, Hr.
Qed.

Lemma upload_all_body_within (P : ref -> Prop) l :
  Forall P l -> writes_within P (upload_all_body l).
Proof.
  induction 1 as [|r l Hr _ IH]; [constructor|].
  constructor; [exact Hr|]. constructor; [exact I | exact IH].
Qed.

Lemma upload_all_body_length l : length (upload_all_body l) = 2 * length l.
Proof. induction l as [|r l IH]; simpl; [reflexivity | rewrite IH; lia]. Qed.

Lemma pending_videos_pending st :
  Forall (fun r => is_pending st r = true) (List.filter (is_pending st) (videos st)).
Proof. apply List.Forall_forall. intros r Hr. apply filter_In in Hr. apply Hr. Qed.

(** The test of [upload_all_videos] holds of the videos whose status is
    ['pending'], and of no other. *)
Lemma is_pending_spec st r :
  is_pending st r = bool_decide (status_of st r = Some "pending").
Proof.
  unfold is_pending, status_of. destruct (heap st !! r) as [v|]; [|reflexivity].
  destruct (String.eqb_spec (status v) "pending") as [E|Hne]; symmetry.
  - apply bool_decide_eq_true_2. simpl. rewrite E. reflexivity.
  - apply bool_decide_eq_false_2. simpl. congruence.
Qed.

Lemma upload_all_videos_unfold st pending_videos :
  List.filter (is_pending st) (videos st) = pending_videos ->
  upload_all_videos st
  = match pending_videos with
    | [] => log (EvShowInfo "Info" "No pending videos to upload") st
    | _ :: _ => start_thread (upload_all_thread pending_videos) st
    end.
Proof. intros <-. reflexivity. Qed.

Lemma upload_all_videos_run st sched r pending_videos :
  List.filter (is_pending st) (videos st) = pending_videos ->
  Forall (fun x => length (threads st) <= fst x) sched ->
  is_pending st r = false ->
  let tid := length (threads st) in
  let st0 := upload_all_videos st in
  let st1 := run (quiet tid (2 * length pending_videos)) st0 in
  match pending_videos with
  | [] =>
      st1 = st0
      /\ threads st0 = threads st
      /\ events_since st st0 = [EvShowInfo "Info" "No pending videos to upload"]
  | _ :: _ =>
      threads st1
      = threads st ++ mkThread [] None None :: map upload_thread pending_videos
      /\ events_since st st1
         = EvThreadStart tid
           :: flat_map (fun i => [EvThreadStart i; EvSleep 1000])
                       (seq (S tid) (length pending_videos))
  end
  /\ heap st1 = heap st
  /\ videos st1 = videos st
  /\ heap (run sched st0) !! r = heap st !! r.
Proof.
  intros Hp Hsched Hr tid st0 st1.
  set (P := fun x => is_pending st x = true).
  assert (HnP : ~ P r) by (unfold P; rewrite Hr; discriminate).
  pose proof (pending_videos_pending st) as Hpend. rewrite Hp in Hpend.
  pose proof (upload_all_videos_unfold st pending_videos Hp) as Hst0.
  fold st0 in Hst0.
  assert (Hall : Forall (thread_within P) (drop tid (threads st0))).
  { rewrite Hst0. destruct pending_videos as [|p ps].
    - cbn [threads log]. unfold tid. rewrite drop_all. constructor.
    - cbn [threads log start_thread set_threads]. unfold tid.
      rewrite drop_app_length. constructor; [|constructor].
      split; [|exact I]. apply upload_all_body_within. exact Hpend. }
  assert (Hlast : heap (run sched st0) !! r = heap st !! r).
  { rewrite (run_within P tid sched st0 Hsched Hall r HnP).
    rewrite Hst0. destruct pending_videos; reflexivity. }
  clear Hall. destruct pending_videos as [|p ps].
  - assert (H1 : st1 = st0) by reflexivity.
    rewrite H1. split; [|split; [|split]]; try exact Hlast.
    + rewrite Hst0. repeat split.
      unfold events_since. cbn [trace log]. apply drop_app_length.
    + rewrite Hst0. reflexivity.
    + rewrite Hst0. reflexivity.
  - assert (Ht : threads st0 !! tid = Some (upload_all_thread (p :: ps))).
    { rewrite Hst0. cbn [threads log start_thread set_threads]. unfold tid.
      rewrite lookup_app_r by lia. rewrite Nat.sub_diag. reflexivity. }
    assert (H1 : st1 = run (quiet tid (length (upload_all_body (p :: ps)))) st0)
      by (unfold st1; rewrite upload_all_body_length; reflexivity).
    rewrite (run_quiet tid (upload_all_body (p :: ps)) [] None None st0) in H1
      by (rewrite app_nil_r; exact Ht).
    destruct (upload_all_body_exec (p :: ps) st0) as (Hh & Hv & Hth & Htr).
    cbv zeta in Hh, Hv, Hth, Htr.
    split; [|split; [|split]]; try exact Hlast.
    + rewrite H1. unfold events_since. cbn [threads trace set_threads].
      rewrite Hth, Htr, Hst0. cbn [threads trace log start_thread set_threads].
      split.
      * rewrite <- app_assoc. unfold tid.
        replace (length (threads st)) with (length (threads st) + 0) at 1 by lia.
        rewrite insert_app_r. reflexivity.
      * rewrite length_app, Nat.add_1_r, <- app_assoc. apply drop_app_length.
    + rewrite H1. cbn [heap set_threads]. rewrite Hh, Hst0. reflexivity.
    + rewrite H1. cbn [videos set_threads]. rewrite Hv, Hst0. reflexivity.
Qed.

(** C8.  [upload_all_videos] selects the jobs of the queue whose status
    is ['pending'] when it is called, these and no others, in queue order.
    When there is none it starts no thread and shows a dialog.  Otherwise
    one thread runs the loop: it starts one upload thread per selected job,
    in queue order, and sleeps 1000 ms after each start; it writes to no
    dict itself.  Whatever the interleaving of the loop and of the uploads
    it started, the dict of a job whose status was not ['pending'] at the
    call is left as it was. *)
Theorem upload_all_videos_spec st sched r :
  Forall (fun x => length (threads st) <= fst x) sched ->
  status_of st r <> Some "pending" ->
  let pending_videos :=
    List.filter (fun x => bool_decide (status_of st x = Some "pending")) (videos st) in
  let tid := length (threads st) in
  let st0 := upload_all_videos st in
  let st1 := run (quiet tid (2 * length pending_videos)) st0 in
  match pending_videos with
  | [] =>
      st1 = st0
      /\ threads st0 = threads st
      /\ events_since st st0 = [EvShowInfo "Info" "No pending videos to upload"]
  | _ :: _ =>
      threads st1
      = threads st ++ mkThread [] None None :: map upload_thread pending_videos
      /\ events_since st st1
         = EvThreadStart tid
           :: flat_map (fun i => [EvThreadStart i; EvSleep 1000])
                       (seq (S tid) (length pending_videos))
  end
  /\ heap st1 = heap st
  /\ videos st1 = videos st
  /\ heap (run sched st0) !! r = heap st !! r.
Proof.
  intros Hsched Hr.
  apply (upload_all_videos_run st sched r).
  - apply filter_ext. intros x. apply is_pending_spec.
  - exact Hsched.
  - rewrite is_pending_spec. apply bool_decide_eq_false_2, Hr.
Qed.

Example first_uploading_statuses :
  map (status_of first_uploading) (videos first_uploading)
  = [Some "uploading"; Some "pending"]
  /\ length (threads first_uploading) = 1.
Proof. split; reflexivity. Qed.

Lemma upload_all_videos_spec_witness :
  Forall (fun x => length (threads first_uploading) <= fst x)
         [(1, None); (2, None); (2, Some TclError); (2, None)]
  /\ status_of first_uploading 0 <> Some "pending"
  /\ List.filter (fun x => bool_decide (status_of first_uploading x = Some "pending"))
                 (videos first_uploading) = [1]
  /\ threads (run (quiet 1 2) (upload_all_videos first_uploading))
     = threads first_uploading ++ [mkThread [] None None; upload_thread 1]
  /\ heap (run [(1, None); (2, None); (2, Some TclError); (2, None)]
               (upload_all_videos first_uploading)) !! 0
     = heap first_uploading !! 0.
Proof.
  assert (Hs : Forall (fun x => length (threads first_uploading) <= fst x)
                      [(1, None); (2, None); (2, Some TclError); (2, None)]).
  { repeat (constructor; [vm_compute; lia|]). constructor. }
  assert (Hp : status_of first_uploading 0 <> Some "pending") by discriminate.
  assert (Hf : List.filter
                 (fun x => bool_decide (status_of first_uploading x = Some "pending"))
                 (videos first_uploading) = [1])
    by (vm_compute; reflexivity).
  pose proof (upload_all_videos_spec first_uploading
                [(1, None); (2, None); (2, Some TclError); (2, None)] 0 Hs Hp) as H.
  cbv zeta in H. rewrite Hf in H. destruct H as ((Ht & _) & _ & _ & Hr).
  split; [exact Hs|]. split; [exact Hp|]. split; [exact Hf|].
  split; [exact Ht | exact Hr].
Defined.

(** * Further properties *)

(** ** Dicts *)

Lemma key_eqb_str k s : key_eqb k (JStr s) = true <-> k = JStr s.
Proof.
  destruct k; simpl; try (split; [discriminate | congruence]).
  rewrite String.eqb_eq. split; congruence.
Qed.

Lemma dict_get_set_str a b v d :
  dict_get (JStr b) (dict_set (JStr a) v d)
  = if String.eqb a b then Some v else dict_get (JStr b) d.
Proof.
  induction d as [|[k w] d IH]; simpl.
  - reflexivity.
  - destruct (key_eqb k (JStr a)) eqn:Ha; simpl.
    + apply key_eqb_str in Ha. subst k. simpl.
      destruct (String.eqb a b); reflexivity.
    + rewrite IH. destruct (key_eqb k (JStr b)) eqn:Hb; [|reflexivity].
      apply key_eqb_str in Hb. subst k. simpl in Ha.
      rewrite String.eqb_sym, Ha. reflexivity.
Qed.

Lemma member_set a b v m :
  member b (members_set a v m) = if String.eqb a b then Some v else member b m.
Proof.
  induction m as [|[k w] m IH]; simpl.
  - reflexivity.
  - destruct (String.eqb k a) eqn:Ha; simpl.
    + apply String.eqb_eq in Ha. subst k. destruct (String.eqb a b); reflexivity.
    + rewrite IH. destruct (String.eqb k b) eqn:Hb; [|reflexivity].
      apply String.eqb_eq in Hb. subst k. rewrite String.eqb_sym, Ha. reflexivity.
Qed.

Lemma json_get_member k m default :
  json_get k m default = from_option (fun v => v) default (member k m).
Proof.
  induction m as [|[k' v] m IH]; simpl; [reflexivity|].
  destruct (String.eqb k' k); [reflexivity | exact IH].
Qed.

(** Merging the members of an object into a dict: the last value written
    for a key is the one found. *)
Lemma dict_get_merge k members d :
  dict_get (JStr k)
           (fold_left (fun acc '(k, v) => dict_set (JStr k) v acc) members d)
  = match member k (rev members) with
    | Some v => Some v
    | None => dict_get (JStr k) d
    end.
Proof.
  revert d. induction members as [|[a v] members IH]; intros d; simpl.
  - reflexivity.
  - rewrite IH. clear IH.
    assert (Hrev : member k (rev members ++ [(a, v)])
                   = match member k (rev members) with
                     | Some w => Some w
                     | None => if String.eqb a k then Some v else None
                     end).
    { induction (rev members) as [|[b w] l IHl]; simpl; [reflexivity|].
      destruct (String.eqb b k); [reflexivity | exact IHl]. }
    rewrite Hrev. destruct (member k (rev members)); [reflexivity|].
    rewrite dict_get_set_str. destruct (String.eqb a k); reflexivity.
Qed.

Lemma member_rev_NoDup k (m : list (string * json)) :
  NoDup (map fst m) -> member k (rev m) = member k m.
Proof.
  induction m as [|[a v] m IH]; intros Hnd; [reflexivity|].
  simpl in Hnd. apply NoDup_cons in Hnd as [Ha Hnd].
  simpl.
  assert (Happ : forall l, member k (l ++ [(a, v)])
                           = match member k l with
                             | Some w => Some w
                             | None => if String.eqb a k then Some v else None
                             end).
  { induction l as [|[b w] l IHl]; simpl; [reflexivity|].
    destruct (String.eqb b k); [reflexivity | exact IHl]. }
  rewrite Happ, (IH Hnd).
  destruct (String.eqb a k) eqn:Hak.
  - apply String.eqb_eq in Hak. subst a.
    destruct (member k m) as [w|] eqn:Hm; [|reflexivity].
    exfalso. apply Ha. clear -Hm.
    induction m as [|[b u] m IHm]; simpl in *; [discriminate|].
    destruct (String.eqb b k) eqn:Hb.
    + apply String.eqb_eq in Hb. subst b. left.
    + right. apply IHm, Hm.
  - destruct (member k m); reflexivity.
Qed.

(** ** Loading the configuration file *)

(** X1.  Only a missing file is tolerated: when the file cannot be read,
    when [json.load] rejects its content (JSONDecodeError, UnicodeDecodeError,
    ValueError for an integer with too many digits, RecursionError), or when
    the content is JSON but not an object, [load_config] lets the exception
    escape with the credentials untouched, the constructor fails and [main]
    reports the error instead of running the GUI. *)
Theorem load_config_rejects file st :
  (file = FileUnreadable \/ (exists d, file = FileMalformed d)
   \/ exists j, file = FileJson j /\ forall m, j <> JObj m) ->
  let e := match file with
           | FileUnreadable => OSError
           | FileMalformed d => decode_exn d
           | _ => AttributeError
           end in
  load_config file st = Raised e (log (EvOpen "gui_config.json" "r") st)
  /\ main file = StartError e
  /\ e <> FileNotFoundError.
Proof.
  intros [->|[[d ->]|(j & -> & Hj)]].
  - repeat split. discriminate.
  - repeat split. destruct d; discriminate.
  - destruct j; try (repeat split; discriminate).
    exfalso. eapply Hj. reflexivity.
Qed.

Lemma load_config_rejects_witness :
  load_config (FileMalformed BadInteger) one_clip
  = Raised ValueError (log (EvOpen "gui_config.json" "r") one_clip)
  /\ main (FileMalformed BadInteger) = StartError ValueError
  /\ ValueError <> FileNotFoundError.
Proof.
  apply (load_config_rejects (FileMalformed BadInteger) one_clip).
  right. left. exists BadInteger. reflexivity.
Defined.

(** The credentials after loading an object whose ["credentials"] member is
    an object. *)
Lemma load_config_object members cm st :
  member "credentials" members = Some (JObj cm) ->
  load_config (FileJson (JObj members)) st
  = Done (set_credentials
            (fold_left (fun acc '(k, v) => dict_set (JStr k) v acc) cm (credentials st))
            (log (EvOpen "gui_config.json" "r") st)).
Proof.
  intros Hm. unfold load_config. rewrite json_get_member, Hm. reflexivity.
Qed.

(** X2.  The credentials of the file are merged key by key at the top
    level: a key of the file replaces the whole value held for that key, and
    a key that the file does not mention keeps its value.  The queue is not
    touched. *)
Theorem load_config_merges members cm st k :
  member "credentials" members = Some (JObj cm) ->
  NoDup (map fst cm) ->
  exists st', load_config (FileJson (JObj members)) st = Done st'
              /\ dict_get (JStr k) (credentials st')
                 = match member k cm with
                   | Some v => Some v
                   | None => dict_get (JStr k) (credentials st)
                   end
              /\ heap st' = heap st
              /\ videos st' = videos st.
Proof.
  intros Hm Hnd. eexists. split; [apply (load_config_object _ _ _ Hm)|].
  cbn [credentials heap videos set_credentials log].
  rewrite dict_get_merge, (member_rev_NoDup k cm Hnd). repeat split.
Qed.

Lemma load_config_merges_witness :
  exists st',
    load_config
      (FileJson (JObj [("credentials", JObj [("instagram", JObj [("username", JStr "me")])])]))
      initial_app = Done st'
    /\ dict_get (JStr "youtube") (credentials st')
       = dict_get (JStr "youtube") default_credentials
    /\ dict_get (JStr "instagram") (credentials st')
       = Some (JObj [("username", JStr "me")]).
Proof.
  assert (Hnd : NoDup (map fst [("instagram", JObj [("username", JStr "me")])]))
    by (repeat constructor; intros H; inversion H).
  destruct (load_config_merges
              [("credentials", JObj [("instagram", JObj [("username", JStr "me")])])]
              [("instagram", JObj [("username", JStr "me")])]
              initial_app "instagram" eq_refl Hnd) as (st' & Hl & Hi & _).
  destruct (load_config_merges
              [("credentials", JObj [("instagram", JObj [("username", JStr "me")])])]
              [("instagram", JObj [("username", JStr "me")])]
              initial_app "youtube" eq_refl Hnd) as (st'' & Hl' & Hy & _).
  exists st'. split; [exact Hl|]. split; [|exact Hi].
  rewrite Hl in Hl'. injection Hl' as <-. exact Hy.
Defined.

Lemma entry_insert_value v : v <> JNull -> entry_insert v = inr v.
Proof. destruct v; [congruence | reflexivity..]. Qed.

Lemma insert_credential_value o i d v :
  credential o i d = inr v -> v <> JNull -> insert_credential o i d = inr v.
Proof.
  intros H Hv. unfold insert_credential. rewrite H. apply entry_insert_value, Hv.
Qed.

Lemma insert_credential_inr o i d v :
  insert_credential o i d = inr v -> credential o i d = inr v /\ v <> JNull.
Proof.
  unfold insert_credential. destruct (credential o i d) as [e|w]; [discriminate|].
  destruct w; simpl; intros [= <-]; split; congruence.
Qed.

(** X3.  A file that holds only part of the Instagram settings makes the
    settings dialog unusable: the merge replaces the whole default entry, so
    after a start with an ["instagram"] object that has no password, building
    the settings window always raises.  When the entries before the password
    can be filled (the YouTube client id and the user name are there and are
    not null), the exception is KeyError for ['password']. *)
Theorem partial_instagram_breaks_settings members cm im :
  member "credentials" members = Some (JObj cm) ->
  NoDup (map fst cm) ->
  member "instagram" cm = Some (JObj im) ->
  member "password" im = None ->
  exists app,
    main (FileJson (JObj members)) = Running app
    /\ (exists e, create_settings_window app = inl e)
    /\ (forall y u,
          credential "youtube" "client_id" (credentials app) = inr y ->
          y <> JNull ->
          member "username" im = Some u ->
          u <> JNull ->
          create_settings_window app = inl (KeyError "password")).
Proof.
  intros Hm Hnd Hi Hp. unfold main, startup.
  rewrite (load_config_object members cm initial_app Hm).
  eexists. split; [reflexivity|].
  set (d := fold_left _ cm _).
  assert (Hu : credential "instagram" "username" d
               = match member "username" im with
                 | Some u => inr u
                 | None => inl (KeyError "username")
                 end).
  { unfold credential, d. cbn [credentials initial_app].
    rewrite dict_get_merge, (member_rev_NoDup _ cm Hnd), Hi. reflexivity. }
  assert (Hpw : insert_credential "instagram" "password" d
                = inl (KeyError "password")).
  { unfold insert_credential, credential, d. cbn [credentials initial_app].
    rewrite dict_get_merge, (member_rev_NoDup _ cm Hnd), Hi, Hp. reflexivity. }
  unfold create_settings_window. cbn [credentials set_credentials log].
  fold d. rewrite Hpw. split.
  - destruct (insert_credential "youtube" "client_id" d);
      [eexists; reflexivity|].
    destruct (insert_credential "instagram" "username" d);
      eexists; reflexivity.
  - intros y u Hy Hyn Hum Hun.
    rewrite (insert_credential_value _ _ _ _ Hy Hyn).
    rewrite Hum in Hu. rewrite (insert_credential_value _ _ _ _ Hu Hun).
    reflexivity.
Qed.

Lemma partial_instagram_breaks_settings_witness :
  exists app,
    main (FileJson (JObj [("credentials",
                           JObj [("instagram", JObj [("username", JStr "me")])])]))
    = Running app
    /\ create_settings_window app = inl (KeyError "password").
Proof.
  assert (Hnd : NoDup (map fst [("instagram", JObj [("username", JStr "me")])]))
    by (repeat constructor; intros H; inversion H).
  destruct (partial_instagram_breaks_settings
              [("credentials", JObj [("instagram", JObj [("username", JStr "me")])])]
              [("instagram", JObj [("username", JStr "me")])]
              [("username", JStr "me")] eq_refl Hnd eq_refl eq_refl)
    as (app & Hm & _ & Hk).
  exists app. split; [exact Hm|].
  apply (Hk (JStr "") (JStr "me")); try discriminate; [|reflexivity].
  vm_compute in Hm. injection Hm as <-. reflexivity.
Defined.

(** ** Saving the settings *)

Lemma dump_members_str (m : list (string * json)) :
  dump_members (map (fun kv => (JStr (fst kv), snd kv)) m) = Some m.
Proof.
  induction m as [|[k v] m IH]; simpl; [reflexivity|]. rewrite IH. reflexivity.
Qed.

Lemma member_not_in k (m : list (string * json)) :
  k ∉ map fst m -> member k m = None.
Proof.
  induction m as [|[a v] m IH]; simpl; intros H; [reflexivity|].
  apply not_elem_of_cons in H as [Hne Hm].
  destruct (String.eqb a k) eqn:Ha; [|exact (IH Hm)].
  apply String.eqb_eq in Ha. congruence.
Qed.

Lemma members_set_fresh k v (m : list (string * json)) :
  k ∉ map fst m -> members_set k v m = m ++ [(k, v)].
Proof.
  induction m as [|[a w] m IH]; simpl; intros H; [reflexivity|].
  apply not_elem_of_cons in H as [Hne Hm].
  destruct (String.eqb a k) eqn:Ha.
  - apply String.eqb_eq in Ha. congruence.
  - rewrite (IH Hm). reflexivity.
Qed.

(** What was written with distinct keys is read back as it is. *)
Lemma load_members_NoDup (m : list (string * json)) :
  NoDup (map fst m) -> load_members m = m.
Proof.
  intros Hnd. unfold load_members.
  assert (H : forall acc, NoDup (map fst (acc ++ m)) ->
                          fold_left (fun acc '(k, v) => members_set k v acc) m acc
                          = acc ++ m).
  { clear Hnd. induction m as [|[k v] m IH]; intros acc Hnd; simpl.
    - rewrite app_nil_r. reflexivity.
    - rewrite members_set_fresh.
      + rewrite IH; rewrite <- app_assoc; [reflexivity | exact Hnd].
      + rewrite map_app in Hnd. simpl in Hnd.
        apply NoDup_app in Hnd as (_ & Hdis & _).
        intros Hin. apply (Hdis k Hin). left. }
  apply (H []). exact Hnd.
Qed.

(** Writing again a value that a dict already holds leaves the dict as it is. *)
Lemma dict_set_same k v (m : list (string * json)) :
  NoDup (map fst m) ->
  (k, v) ∈ m ->
  dict_set (JStr k) v (map (fun kv => (JStr (fst kv), snd kv)) m)
  = map (fun kv => (JStr (fst kv), snd kv)) m.
Proof.
  induction m as [|[a w] m IH]; intros Hnd Hin; [inversion Hin|].
  simpl in Hnd. apply NoDup_cons in Hnd as [Ha Hnd].
  simpl. destruct (String.eqb a k) eqn:Hak.
  - apply String.eqb_eq in Hak. subst a.
    apply elem_of_cons in Hin as [Heq|Hin]; [congruence|].
    exfalso. apply Ha. apply (list_elem_of_fmap_2 fst) in Hin. exact Hin.
  - apply elem_of_cons in Hin as [Heq|Hin].
    + injection Heq as -> ->. rewrite String.eqb_refl in Hak. discriminate.
    + rewrite (IH Hnd Hin). reflexivity.
Qed.

Lemma dict_merge_self (m l : list (string * json)) :
  NoDup (map fst m) ->
  l ⊆ m ->
  fold_left (fun acc '(k, v) => dict_set (JStr k) v acc) l
            (map (fun kv => (JStr (fst kv), snd kv)) m)
  = map (fun kv => (JStr (fst kv), snd kv)) m.
Proof.
  intros Hnd. induction l as [|[k v] l IH]; intros Hl; simpl; [reflexivity|].
  rewrite dict_set_same; [|exact Hnd|apply Hl; left].
  apply IH. intros x Hx. apply Hl. right. exact Hx.
Qed.

(** X4.  Round trip of the configuration file: when the keys of the
    credentials are strings, [save_config] writes a file from which
    [load_config] reads the credentials back unchanged. *)
Theorem save_config_load_config st :
  str_keys (credentials st) ->
  exists file st2,
    save_config true st
    = mkSaved None (log (EvOpen "gui_config.json" "w") st) (Some file)
    /\ load_config file (after (save_config true st)) = Done st2
    /\ credentials st2 = credentials st.
Proof.
  intros (m & Hd & Hnd). unfold save_config.
  rewrite Hd, dump_members_str, (load_members_NoDup m Hnd).
  eexists _, _. split; [reflexivity|]. cbn [after].
  rewrite (load_config_object [("credentials", JObj m)] m _ eq_refl).
  split; [reflexivity|]. cbn [credentials set_credentials log]. rewrite Hd.
  apply dict_merge_self; [exact Hnd | intros x Hx; exact Hx].
Qed.

Lemma default_credentials_str_keys : str_keys default_credentials.
Proof.
  exists [("youtube",
           JObj [("client_id", JStr ""); ("client_secret", JStr "");
                 ("authenticated", JBool false)]);
          ("instagram",
           JObj [("username", JStr ""); ("password", JStr "");
                 ("authenticated", JBool false)])].
  split; [reflexivity|].
  repeat constructor; intros H; repeat (inversion H; subst; clear H;
    match goal with H' : _ ∈ _ |- _ => rename H' into H | _ => idtac end);
    try discriminate.
Qed.

Lemma save_config_load_config_witness :
  str_keys (credentials one_clip)
  /\ exists file st2,
       save_config true one_clip
       = mkSaved None (log (EvOpen "gui_config.json" "w") one_clip) (Some file)
       /\ load_config file (after (save_config true one_clip)) = Done st2
       /\ credentials st2 = credentials one_clip.
Proof.
  split; [exact default_credentials_str_keys|].
  exact (save_config_load_config one_clip default_credentials_str_keys).
Defined.

Lemma members_set_keys k v (m : list (string * json)) x :
  x ∈ map fst (members_set k v m) -> x = k \/ x ∈ map fst m.
Proof.
  induction m as [|[a w] m IH]; simpl; intros H.
  - apply elem_of_cons in H as [->|H]; [left; reflexivity | inversion H].
  - destruct (String.eqb a k); simpl in H.
    + right. exact H.
    + apply elem_of_cons in H as [->|H]; [right; left|].
      destruct (IH H) as [->|Hx]; [left; reflexivity | right; right; exact Hx].
Qed.

Lemma members_set_NoDup k v (m : list (string * json)) :
  NoDup (map fst m) -> NoDup (map fst (members_set k v m)).
Proof.
  induction m as [|[a w] m IH]; simpl; intros Hnd.
  - repeat constructor. intros H. inversion H.
  - apply NoDup_cons in Hnd as [Ha Hnd].
    destruct (String.eqb a k) eqn:Hak; simpl.
    + apply NoDup_cons. split; assumption.
    + apply NoDup_cons. split; [|exact (IH Hnd)].
      intros Hin. apply members_set_keys in Hin as [->|Hin]; [|exact (Ha Hin)].
      rewrite String.eqb_refl in Hak. discriminate.
Qed.

Lemma set_credential_inr o i v d d' :
  set_credential o i v d = inr d' ->
  exists m, dict_get (JStr o) d = Some (JObj m)
            /\ d' = dict_set (JStr o) (JObj (members_set i v m)) d.
Proof.
  unfold set_credential. destruct (dict_get (JStr o) d) as [[| | | | |m]|];
    try discriminate.
  intros [= <-]. exists m. split; reflexivity.
Qed.

(** An assignment to a credential is read back. *)
Lemma credential_set_same o i v d d' :
  set_credential o i v d = inr d' -> credential o i d' = inr v.
Proof.
  intros H. apply set_credential_inr in H as (m & _ & ->).
  unfold credential. rewrite dict_get_set_str, String.eqb_refl, member_set,
    String.eqb_refl. reflexivity.
Qed.

(** An assignment to a credential leaves the other credentials as they are. *)
Lemma credential_set_other o i v d d' o' i' :
  set_credential o i v d = inr d' ->
  o <> o' \/ i <> i' ->
  credential o' i' d' = credential o' i' d.
Proof.
  intros H Hne. apply set_credential_inr in H as (m & Hm & ->).
  unfold credential. rewrite dict_get_set_str.
  destruct (String.eqb o o') eqn:Ho; [|reflexivity].
  apply String.eqb_eq in Ho. subst o'. rewrite Hm, member_set.
  destruct (String.eqb i i') eqn:Hi; [|reflexivity].
  apply String.eqb_eq in Hi. subst i'. destruct Hne; congruence.
Qed.

Lemma dict_set_keys k v d w :
  dict_get k d = Some w -> map fst (dict_set k v d) = map fst d.
Proof.
  induction d as [|[a u] d IH]; simpl; [discriminate|].
  destruct (key_eqb a k); simpl; [reflexivity|].
  intros H. rewrite (IH H). reflexivity.
Qed.

Lemma set_credential_keys o i v d d' :
  set_credential o i v d = inr d' -> map fst d' = map fst d.
Proof.
  intros H. apply set_credential_inr in H as (m & Hm & ->).
  apply (dict_set_keys _ _ _ _ Hm).
Qed.

Lemma distinct_keys_fst d d' :
  map fst d = map fst d' -> distinct_keys d = distinct_keys d'.
Proof.
  assert (Hf : forall (g : json -> bool) (l : pydict),
             forallb (fun kv => g (fst kv)) l = forallb g (map fst l)).
  { intros g l. induction l as [|x l IH]; simpl; [reflexivity|].
    rewrite IH. reflexivity. }
  revert d'. induction d as [|[k v] d IH]; intros [|[k' v'] d']; simpl;
    try discriminate; [reflexivity|].
  intros [= <- Hd]. rewrite (IH d' Hd).
  rewrite (Hf (fun x => negb (key_eqb k x)) d),
    (Hf (fun x => negb (key_eqb k x)) d'), Hd. reflexivity.
Qed.

(** [json.dump] writes the keys "youtube" and "instagram" for these strings
    only. *)
Lemma dump_key_youtube k : dump_key k = Some "youtube" -> k = JStr "youtube".
Proof.
  destruct k as [|[|]|n|s| |]; simpl; try discriminate.
  - destruct (Z.to_int n) as [u|u]; [destruct u|]; discriminate.
  - intros [= ->]. reflexivity.
Qed.

Lemma dump_key_instagram k : dump_key k = Some "instagram" -> k = JStr "instagram".
Proof.
  destruct k as [|[|]|n|s| |]; simpl; try discriminate.
  - destruct (Z.to_int n) as [u|u]; [destruct u|]; discriminate.
  - intros [= ->]. reflexivity.
Qed.

Lemma load_members_distinct (m : list (string * json)) :
  NoDup (map fst (load_members m)).
Proof.
  unfold load_members.
  assert (H : forall acc, NoDup (map fst acc) ->
                          NoDup (map fst (fold_left
                                            (fun acc '(k, v) => members_set k v acc)
                                            m acc))).
  { induction m as [|[k v] m IH]; intros acc Hacc; simpl; [exact Hacc|].
    apply IH, members_set_NoDup, Hacc. }
  apply H. constructor.
Qed.

Lemma fold_members_other s (m acc : list (string * json)) :
  s ∉ map fst m ->
  member s (fold_left (fun acc '(k, v) => members_set k v acc) m acc) = member s acc.
Proof.
  revert acc. induction m as [|[k v] m IH]; intros acc Hs; simpl; [reflexivity|].
  simpl in Hs. apply not_elem_of_cons in Hs as [Hne Hm].
  rewrite (IH _ Hm), member_set.
  destruct (String.eqb k s) eqn:E; [|reflexivity].
  apply String.eqb_eq in E. congruence.
Qed.

Lemma dumped_key_fresh s (d : pydict) m :
  (forall k, dump_key k = Some s -> k = JStr s) ->
  forallb (fun kv => negb (key_eqb (JStr s) (fst kv))) d = true ->
  dump_members d = Some m ->
  s ∉ map fst m.
Proof.
  intros Hs. revert m. induction d as [|[k v] d IH]; intros m Hf Hm; simpl in *.
  - injection Hm as <-. intros H. inversion H.
  - destruct (dump_key k) as [sk|] eqn:Ek; [|discriminate].
    destruct (dump_members d) as [m'|]; [|discriminate].
    injection Hm as <-. apply andb_true_iff in Hf as [Hk Hf].
    simpl. apply not_elem_of_cons. split; [|exact (IH m' Hf eq_refl)].
    intros ->. apply Hs in Ek. subst k. simpl in Hk.
    rewrite String.eqb_refl in Hk. discriminate.
Qed.

(** What the file holds for a key after a dump: the value of the dict. *)
Lemma member_after_dump s (d : pydict) m v acc :
  (forall k, dump_key k = Some s -> k = JStr s) ->
  distinct_keys d = true ->
  dump_members d = Some m ->
  dict_get (JStr s) d = Some v ->
  member s (fold_left (fun acc '(k, v) => members_set k v acc) m acc) = Some v.
Proof.
  intros Hs. revert m acc. induction d as [|[k x] d IH]; intros m acc Hd Hm Hv;
    simpl in *; [discriminate|].
  destruct (dump_key k) as [sk|] eqn:Ek; [|discriminate].
  destruct (dump_members d) as [m'|] eqn:Em; [|discriminate].
  injection Hm as <-. apply andb_true_iff in Hd as [Hf Hd]. simpl.
  destruct (key_eqb k (JStr s)) eqn:Hk.
  - apply key_eqb_str in Hk. subst k. simpl in Ek.
    injection Ek as <-. injection Hv as <-.
    rewrite (fold_members_other s m' _ (dumped_key_fresh s d m' Hs Hf Em)).
    rewrite member_set, String.eqb_refl. reflexivity.
  - apply (IH m' _ Hd eq_refl Hv).
Qed.

(** A credential of the dict is found again after the file written from the
    dict was merged into the defaults. *)
Lemma credential_after_restart o i x d m :
  (forall k, dump_key k = Some o -> k = JStr o) ->
  distinct_keys d = true ->
  dump_members d = Some m ->
  credential o i d = inr x ->
  credential o i (fold_left (fun acc '(k, v) => dict_set (JStr k) v acc)
                            (load_members m) default_credentials) = inr x.
Proof.
  intros Ho Hd Hm. unfold credential.
  destruct (dict_get (JStr o) d) as [w|] eqn:E; [|discriminate].
  rewrite dict_get_merge, (member_rev_NoDup o _ (load_members_distinct m)).
  unfold load_members. rewrite (member_after_dump o d m w [] Ho Hd Hm E).
  intros H. exact H.
Qed.

(** X5.  Settings persist.  The credentials are a Python dict, so their
    keys are pairwise different.  When [save_settings] returns without an
    exception, the three texts are in the credentials, the status bar says
    so, and a later start of the program from the file that was written
    shows the same three texts in the settings dialog, whatever other keys
    the credentials hold. *)
Theorem save_settings_persist a b c st :
  distinct_keys (credentials st) = true ->
  escaped (save_settings a b c true st) = None ->
  let s := save_settings a b c true st in
  create_settings_window (after s) = inr (JStr a, JStr b, JStr c)
  /\ status_label (after s) = "Settings saved"
  /\ exists file app,
       disk s = Some file
       /\ main file = Running app
       /\ create_settings_window app = inr (JStr a, JStr b, JStr c).
Proof.
  intros Hk Hs s. subst s. revert Hs. unfold save_settings.
  destruct (set_credential "youtube" "client_id" (JStr a) (credentials st))
    as [e|d1] eqn:E1; [discriminate|].
  destruct (set_credential "instagram" "username" (JStr b) d1)
    as [e|d2] eqn:E2; [discriminate|].
  destruct (set_credential "instagram" "password" (JStr c) d2)
    as [e|d3] eqn:E3; [discriminate|].
  assert (Hy : credential "youtube" "client_id" d3 = inr (JStr a)).
  { rewrite (credential_set_other _ _ _ _ _ "youtube" "client_id" E3)
      by (left; discriminate).
    rewrite (credential_set_other _ _ _ _ _ "youtube" "client_id" E2)
      by (left; discriminate).
    apply (credential_set_same _ _ _ _ _ E1). }
  assert (Hu : credential "instagram" "username" d3 = inr (JStr b)).
  { rewrite (credential_set_other _ _ _ _ _ "instagram" "username" E3)
      by (right; discriminate).
    apply (credential_set_same _ _ _ _ _ E2). }
  assert (Hp : credential "instagram" "password" d3 = inr (JStr c))
    by apply (credential_set_same _ _ _ _ _ E3).
  assert (Hk3 : distinct_keys d3 = true).
  { rewrite (distinct_keys_fst d3 (credentials st)); [exact Hk|].
    rewrite (set_credential_keys _ _ _ _ _ E3), (set_credential_keys _ _ _ _ _ E2),
      (set_credential_keys _ _ _ _ _ E1). reflexivity. }
  unfold save_config. cbn [credentials set_credentials].
  destruct (dump_members d3) as [m3|] eqn:Hm3;
    cbn [escaped after disk status_label update_status]; [intros _|discriminate].
  split; [|split; [reflexivity|]].
  - unfold create_settings_window.
    cbn [credentials update_status log set_credentials].
    rewrite (insert_credential_value _ _ _ _ Hy), (insert_credential_value _ _ _ _ Hu),
      (insert_credential_value _ _ _ _ Hp) by discriminate.
    reflexivity.
  - eexists _, _. split; [reflexivity|].
    unfold main, startup.
    rewrite (load_config_object [("credentials", JObj (load_members m3))]
               (load_members m3) initial_app eq_refl).
    split; [reflexivity|].
    unfold create_settings_window. cbn [credentials set_credentials log initial_app].
    rewrite (insert_credential_value _ _ _ _
               (credential_after_restart _ _ _ _ _ dump_key_youtube Hk3 Hm3 Hy)),
      (insert_credential_value _ _ _ _
         (credential_after_restart _ _ _ _ _ dump_key_instagram Hk3 Hm3 Hu)),
      (insert_credential_value _ _ _ _
         (credential_after_restart _ _ _ _ _ dump_key_instagram Hk3 Hm3 Hp))
      by discriminate.
    reflexivity.
Qed.

Lemma save_settings_persist_witness :
  let st := set_credentials (dict_set (JInt 1) (JInt 2) default_credentials) one_clip in
  distinct_keys (credentials st) = true
  /\ escaped (save_settings "id-1" "me" "secret" true st) = None
  /\ exists file app,
       disk (save_settings "id-1" "me" "secret" true st) = Some file
       /\ main file = Running app
       /\ create_settings_window app = inr (JStr "id-1", JStr "me", JStr "secret").
Proof.
  split; [reflexivity|]. split; [reflexivity|].
  exact (proj2 (proj2
           (save_settings_persist "id-1" "me" "secret"
              (set_credentials (dict_set (JInt 1) (JInt 2) default_credentials) one_clip)
              eq_refl eq_refl))).
Defined.

Lemma credential_inr o i x d :
  credential o i d = inr x -> exists m, dict_get (JStr o) d = Some (JObj m).
Proof.
  unfold credential. destruct (dict_get (JStr o) d) as [[| | | | |m]|];
    try discriminate.
  intros _. exists m. reflexivity.
Qed.

Lemma dump_members_hashable d :
  Forall (fun k => hashable k = true) (map fst d) ->
  exists m, dump_members d = Some m.
Proof.
  induction d as [|[k v] d IH]; simpl; intros H; [eexists; reflexivity|].
  apply Forall_cons in H as [Hk Hd]. destruct (IH Hd) as [m ->].
  destruct k as [|[|]| | | |]; simpl in *; try discriminate; eexists; reflexivity.
Qed.

(** X6.  Once the settings window could be built, its Save button fails
    for no other reason than the disk.  With a writable file
    [save_settings] returns normally and writes the file.  When the file
    cannot be opened for writing, the error escapes after the three texts
    were stored in memory: nothing is written and the status bar is not
    updated, but the running program already uses the new values. *)
Theorem save_settings_after_window a b c writable st shown :
  create_settings_window st = inr shown ->
  Forall (fun k => hashable k = true) (map fst (credentials st)) ->
  let s := save_settings a b c writable st in
  escaped s = (if writable then None else Some WriteError)
  /\ create_settings_window (after s) = inr (JStr a, JStr b, JStr c)
  /\ (if writable then exists file, disk s = Some file
                                   /\ status_label (after s) = "Settings saved"
      else disk s = None /\ status_label (after s) = status_label st).
Proof.
  intros Hw Hh s. subst s. revert Hw. unfold create_settings_window.
  destruct (insert_credential "youtube" "client_id" (credentials st)) as [|y] eqn:Hy;
    [discriminate|].
  destruct (insert_credential "instagram" "username" (credentials st)) as [|u] eqn:Hu;
    [discriminate|].
  destruct (insert_credential "instagram" "password" (credentials st)) as [|p] eqn:Hp;
    [discriminate|].
  intros _.
  apply insert_credential_inr in Hy as [Hy _].
  apply insert_credential_inr in Hu as [Hu _].
  apply insert_credential_inr in Hp as [Hp _].
  destruct (credential_inr _ _ _ _ Hy) as [my Hmy].
  destruct (credential_inr _ _ _ _ Hu) as [mi Hmi].
  unfold save_settings.
  assert (E1 : set_credential "youtube" "client_id" (JStr a) (credentials st)
               = inr (dict_set (JStr "youtube")
                               (JObj (members_set "client_id" (JStr a) my))
                               (credentials st)))
    by (unfold set_credential; rewrite Hmy; reflexivity).
  rewrite E1. set (d1 := dict_set (JStr "youtube") _ (credentials st)) in *.
  assert (E2 : set_credential "instagram" "username" (JStr b) d1
               = inr (dict_set (JStr "instagram")
                               (JObj (members_set "username" (JStr b) mi)) d1)).
  { unfold set_credential, d1. rewrite dict_get_set_str. simpl. rewrite Hmi.
    reflexivity. }
  rewrite E2. set (d2 := dict_set (JStr "instagram") _ d1) in *.
  assert (E3 : set_credential "instagram" "password" (JStr c) d2
               = inr (dict_set (JStr "instagram")
                               (JObj (members_set "password" (JStr c)
                                        (members_set "username" (JStr b) mi))) d2)).
  { unfold set_credential, d2. rewrite dict_get_set_str. reflexivity. }
  rewrite E3. set (d3 := dict_set (JStr "instagram") _ d2) in *.
  assert (Hy3 : credential "youtube" "client_id" d3 = inr (JStr a)).
  { rewrite (credential_set_other _ _ _ _ _ "youtube" "client_id" E3)
      by (left; discriminate).
    rewrite (credential_set_other _ _ _ _ _ "youtube" "client_id" E2)
      by (left; discriminate).
    apply (credential_set_same _ _ _ _ _ E1). }
  assert (Hu3 : credential "instagram" "username" d3 = inr (JStr b)).
  { rewrite (credential_set_other _ _ _ _ _ "instagram" "username" E3)
      by (right; discriminate).
    apply (credential_set_same _ _ _ _ _ E2). }
  assert (Hp3 : credential "instagram" "password" d3 = inr (JStr c))
    by apply (credential_set_same _ _ _ _ _ E3).
  assert (Hk3 : map fst d3 = map fst (credentials st)).
  { unfold d3, d2, d1.
    erewrite dict_set_keys
      by (rewrite dict_get_set_str; reflexivity).
    erewrite dict_set_keys
      by (rewrite dict_get_set_str; simpl; exact Hmi).
    erewrite dict_set_keys by exact Hmy. reflexivity. }
  rewrite <- Hk3 in Hh. destruct (dump_members_hashable d3 Hh) as [m3 Hm3].
  unfold save_config. cbn [credentials set_credentials].
  destruct writable.
  - rewrite Hm3. cbn [escaped after disk status_label update_status].
    split; [reflexivity|]. split.
    + unfold create_settings_window.
      cbn [credentials update_status log set_credentials].
      rewrite (insert_credential_value _ _ _ _ Hy3),
        (insert_credential_value _ _ _ _ Hu3),
        (insert_credential_value _ _ _ _ Hp3) by discriminate.
      reflexivity.
    + eexists. split; reflexivity.
  - cbn [escaped after disk status_label log set_credentials].
    split; [reflexivity|]. split; [|split; reflexivity].
    unfold create_settings_window. cbn [credentials log set_credentials].
    rewrite (insert_credential_value _ _ _ _ Hy3),
      (insert_credential_value _ _ _ _ Hu3),
      (insert_credential_value _ _ _ _ Hp3) by discriminate.
    reflexivity.
Qed.

Lemma save_settings_after_window_witness :
  create_settings_window one_clip = inr (JStr "", JStr "", JStr "")
  /\ escaped (save_settings "id-1" "me" "secret" false one_clip) = Some WriteError
  /\ create_settings_window (after (save_settings "id-1" "me" "secret" false one_clip))
     = inr (JStr "id-1", JStr "me", JStr "secret").
Proof.
  assert (Hh : Forall (fun k => hashable k = true) (map fst (credentials one_clip)))
    by (repeat constructor).
  split; [reflexivity|].
  pose proof (save_settings_after_window "id-1" "me" "secret" false one_clip
                (JStr "", JStr "", JStr "") eq_refl Hh) as H.
  cbv zeta in H. split; [apply H | apply H].
Defined.

(** ** What holds in every state of a running program *)

Lemma list_remove_sublist eqb l l' :
  list_remove eqb l = Some l' -> l' `sublist_of` l.
Proof.
  revert l'. induction l as [|y l IH]; intros l'; simpl; [discriminate|].
  destruct (eqb y).
  - intros [= <-]. apply sublist_cons_r. left. reflexivity.
  - destruct (list_remove eqb l) as [l''|]; [|discriminate].
    intros [= <-]. apply sublist_skip, IH. reflexivity.
Qed.

Lemma upload_body_ok r : cmds_ok (upload_body r).
Proof.
  unfold cmds_ok, upload_body.
  apply Forall_app. split; [repeat constructor|].
  apply Forall_app. split; [|repeat constructor; lia].
  apply List.Forall_forall. intros c Hc.
  apply in_flat_map in Hc as (i & Hi & Hc). apply in_seq in Hi. simpl in Hc.
  destruct Hc as [<-|[<-|[<-|[]]]]; try exact I. lia.
Qed.

Lemma upload_thread_ok r : thread_ok (upload_thread r).
Proof. split; [apply upload_body_ok | repeat constructor]. Qed.

Lemma upload_all_thread_ok l : thread_ok (upload_all_thread l).
Proof.
  split; [|exact I]. unfold cmds_ok. simpl.
  induction l as [|r l IH]; simpl; repeat constructor. exact IH.
Qed.

Lemma progress_show_default st :
  progress_bar (show_default_editor_message st) = progress_bar st.
Proof. unfold show_default_editor_message. destruct (editor st); reflexivity. Qed.

Lemma form_ok_show_default st : form_ok (editor (show_default_editor_message st)).
Proof. unfold show_default_editor_message. destruct (editor st) eqn:E; simpl; try rewrite E; exact I. Qed.

Lemma save_settings_progress a b c writable st :
  progress_bar (after (save_settings a b c writable st)) = progress_bar st.
Proof.
  unfold save_settings.
  destruct (set_credential "youtube" "client_id" (JStr a) (credentials st)) as [|d1];
    [reflexivity|].
  destruct (set_credential "instagram" "username" (JStr b) d1) as [|d2];
    [reflexivity|].
  destruct (set_credential "instagram" "password" (JStr c) d2) as [|d3];
    [reflexivity|].
  unfold save_config. cbn [credentials set_credentials].
  destruct writable; [destruct (dump_members d3)|]; reflexivity.
Qed.

Lemma save_settings_queue a b c writable st :
  let st' := after (save_settings a b c writable st) in
  heap st' = heap st /\ videos st' = videos st /\ editor st' = editor st
  /\ threads st' = threads st.
Proof.
  unfold save_settings.
  destruct (set_credential "youtube" "client_id" (JStr a) (credentials st)) as [|d1];
    [repeat split|].
  destruct (set_credential "instagram" "username" (JStr b) d1) as [|d2];
    [repeat split|].
  destruct (set_credential "instagram" "password" (JStr c) d2) as [|d3];
    [repeat split|].
  unfold save_config. cbn [credentials set_credentials].
  destruct writable; [destruct (dump_members d3)|]; repeat split.
Qed.

Lemma load_config_queue file st st' :
  load_config file st = Done st' ->
  heap st' = heap st /\ videos st' = videos st /\ editor st' = editor st
  /\ threads st' = threads st.
Proof.
  unfold load_config. destruct file as [| |d|[| | | | |members]]; try discriminate.
  - intros [= <-]. repeat split.
  - destruct (dict_update _ _) as [d [e|]]; [discriminate|].
    intros [= <-]. repeat split.
Qed.

Lemma load_config_progress file st st' :
  load_config file st = Done st' -> progress_bar st' = progress_bar st.
Proof.
  unfold load_config. destruct file as [| |d|[| | | | |members]]; try discriminate.
  - intros [= <-]. reflexivity.
  - destruct (dict_update _ _) as [d [e|]]; [discriminate|].
    intros [= <-]. reflexivity.
Qed.

Lemma exec_cmd_queue exc c st :
  videos (exec_cmd exc c st) = videos st
  /\ editor (exec_cmd exc c st) = editor st
  /\ threads (exec_cmd exc c st)
     = threads st ++ match c with CUploadSingle r => [upload_thread r] | _ => [] end.
Proof.
  destruct c; simpl; rewrite ?app_nil_r; try (repeat split; fail).
  - destruct (heap st !! r); simpl; rewrite ?app_nil_r; repeat split.
  - destruct (heap st !! r), exc; simpl; rewrite ?app_nil_r; repeat split.
Qed.

Lemma video_ok_set_status s v : valid_status s -> video_ok v -> video_ok (set_status s v).
Proof. intros Hs (_ & Hp & Hl & Ht). repeat split; assumption. Qed.

Lemma checked_platforms_valid y i :
  valid_platforms (checked_platforms [("youtube", y); ("instagram", i); ("tiktok", false)]).
Proof. destruct y, i; repeat constructor. Qed.

Lemma create_video_editor_form_ok v :
  video_ok v -> form_ok (FormShown (create_video_editor_form v)).
Proof.
  intros (_ & Hp & Hl & _). split; [exact Hp|].
  unfold create_video_editor_form. cbn [platform_vars].
  unfold valid_platforms in Hl.
  repeat (apply elem_of_cons in Hl as [->|Hl]); [..|inversion Hl];
    eexists _, _; reflexivity.
Qed.

Lemma toggle_platform_ok p f :
  form_ok (FormShown f) -> form_ok (FormShown (toggle_platform p f)).
Proof.
  intros (Hp & y & i & Hv). unfold toggle_platform.
  destruct (String.eqb p "tiktok") eqn:Ht; [split; [exact Hp | eauto]|].
  split; [exact Hp|]. cbn [platform_vars]. rewrite Hv. cbn [map fst snd].
  rewrite (String.eqb_sym "tiktok" p), Ht.
  destruct (String.eqb "youtube" p), (String.eqb "instagram" p); eexists _, _; reflexivity.
Qed.

Lemma video_update_ok f v :
  form_ok (FormShown f) -> video_ok v -> video_ok (video_update f v).
Proof.
  intros (Hp & y & i & Hv) (Hs & _). repeat split; cbn.
  - exact Hs.
  - exact Hp.
  - rewrite Hv. apply checked_platforms_valid.
  - apply parse_tags_clean.
Qed.

Section Invariant.

Variable path_name : string -> string.
Variable path_stem : string -> string.

Lemma add_loop_panel files st :
  editor (add_loop path_name path_stem files st) = editor st
  /\ threads (add_loop path_name path_stem files st) = threads st.
Proof.
  revert st. induction files as [|f files IH]; intros st; [split; reflexivity|].
  simpl. destruct (IH (append_video (new_video path_name path_stem (length (videos st)) f) st))
    as [-> ->]. split; reflexivity.
Qed.

Lemma add_loop_progress files st :
  progress_bar (add_loop path_name path_stem files st) = progress_bar st.
Proof.
  revert st. induction files as [|f files IH]; intros st; [reflexivity|].
  simpl. rewrite IH. reflexivity.
Qed.

Lemma new_video_ok n f : video_ok (new_video path_name path_stem n f).
Proof. repeat split; repeat constructor. Qed.

Lemma step_thread_ok tid fault st : app_ok st -> app_ok (step_thread tid fault st).
Proof.
  intros (Hh & Hf & Hnd & Hv & Ht & Hp). unfold step_thread.
  destruct (threads st !! tid) as [t|] eqn:Etid;
    [|exact (conj Hh (conj Hf (conj Hnd (conj Hv (conj Ht Hp)))))].
  pose proof (Forall_lookup_1 _ _ _ _ Ht Etid) as [Hb Hhd].
  destruct (body t) as [|c rest] eqn:Eb;
    [exact (conj Hh (conj Hf (conj Hnd (conj Hv (conj Ht Hp)))))|].
  apply Forall_cons in Hb as [Hc Hrest].
  destruct (if can_raise c then fault else None) as [e|].
  - refine (conj Hh (conj Hf (conj Hnd (conj Hv (conj _ Hp))))). cbn [threads set_threads].
    apply Forall_insert; [exact Ht|]. unfold raise_in.
    destruct (handler t) as [h|]; split; simpl; try exact I; try exact Hhd; constructor.
  - cbv zeta. destruct (exec_cmd_queue (caught t) c st) as (Ev & Ee & Eth).
    unfold app_ok. cbn [heap videos editor threads progress_bar set_threads].
    rewrite heap_exec_cmd, Ev, Ee, Eth.
    assert (Hlen : length (cmd_heap c (heap st)) = length (heap st))
      by (destruct c; simpl; try reflexivity; apply length_alter).
    assert (Hbar : progress_bar (exec_cmd (caught t) c st) <= 100).
    { destruct c; simpl; try exact Hp; try exact Hc.
      - destruct (heap st !! r); exact Hp.
      - destruct (heap st !! r), (caught t); exact Hp. }
    rewrite Hlen. refine (conj _ (conj Hf (conj Hnd (conj Hv (conj _ Hbar))))).
    + destruct c; simpl; try exact Hh.
      apply Forall_alter; [exact Hh|]. intros v _ Hv0.
      apply video_ok_set_status; assumption.
    + apply Forall_insert.
      * apply Forall_app. split; [exact Ht|].
        destruct c; try (constructor; fail).
        constructor; [apply upload_thread_ok | constructor].
      * split; [exact Hrest | exact Hhd].
Qed.

(** Every event keeps the state well formed. *)
Lemma fire_ok ev st : app_ok st -> app_ok (fire path_name path_stem ev st).
Proof.
  intros Hok. pose proof Hok as (Hh & Hf & Hnd & Hv & Ht & Hp).
  destruct ev as [files|i|s|s|s|p|private| | |confirm| |a b c writable|tid fault];
    cbn [fire].
  - (* add_videos *)
    unfold app_ok. rewrite heap_add_videos, videos_add_videos.
    unfold add_videos.
    cbn [editor threads progress_bar update_status refresh_video_list log].
    destruct (add_loop_panel files st) as [-> ->]. rewrite add_loop_progress.
    repeat split; try assumption.
    + apply Forall_app. split; [exact Hh|].
      apply Forall_lookup_2. intros j v Hj.
      rewrite list_lookup_imap in Hj.
      destruct (files !! j); [|discriminate]. injection Hj as <-. apply new_video_ok.
    + apply NoDup_app. split; [exact Hnd|]. split; [|apply NoDup_seq].
      intros x Hx Hs. apply elem_of_seq in Hs.
      pose proof (proj1 (Forall_forall _ _) Hv x Hx). simpl in *. lia.
    + rewrite length_app. apply Forall_app. split.
      * eapply Forall_impl; [exact Hv|]. intros x Hx. simpl in *. lia.
      * apply Forall_seq. intros j Hj. rewrite length_imap. lia.
  - (* Edit *)
    destruct (videos st !! i) as [r|]; [|exact Hok].
    unfold select_video. destruct (heap st !! r) as [v|] eqn:Er; [|exact Hok].
    refine (conj Hh (conj _ (conj Hnd (conj Hv (conj Ht Hp))))).
    apply create_video_editor_form_ok. exact (Forall_lookup_1 _ _ _ _ Hh Er).
  - unfold on_form. destruct (editor st) eqn:E; try exact Hok.
    exact (conj Hh (conj Hf (conj Hnd (conj Hv (conj Ht Hp))))).
  - unfold on_form. destruct (editor st) eqn:E; try exact Hok.
    exact (conj Hh (conj Hf (conj Hnd (conj Hv (conj Ht Hp))))).
  - unfold on_form. destruct (editor st) eqn:E; try exact Hok.
    exact (conj Hh (conj Hf (conj Hnd (conj Hv (conj Ht Hp))))).
  - unfold on_form. destruct (editor st) eqn:E; try exact Hok.
    refine (conj Hh (conj _ (conj Hnd (conj Hv (conj Ht Hp))))).
    apply toggle_platform_ok, Hf.
  - unfold on_form. destruct (editor st) eqn:E; try exact Hok.
    refine (conj Hh (conj _ (conj Hnd (conj Hv (conj Ht Hp))))).
    split; [destruct private; repeat constructor | apply Hf].
  - (* Save Changes *)
    unfold form_button. destruct (editor st) as [|f|] eqn:E; try exact Hok.
    destruct (current_video st) as [r|]; [|exact Hok].
    rewrite (save_video_changes_shown st r f E).
    unfold app_ok.
    cbn [heap videos editor threads progress_bar update_status refresh_video_list
         log set_heap].
    rewrite length_alter, E.
    refine (conj _ (conj Hf (conj Hnd (conj Hv (conj Ht Hp))))).
    apply Forall_alter; [exact Hh|]. intros v _ Hv0.
    apply video_update_ok; assumption.
  - (* Upload Now *)
    unfold form_button. destruct (editor st) as [|f|] eqn:E; try exact Hok.
    destruct (current_video st) as [r|]; [|exact Hok].
    refine (conj Hh (conj _ (conj Hnd (conj Hv (conj _ Hp))))).
    + cbn. rewrite E. exact Hf.
    + cbn. apply Forall_app. split; [exact Ht|]. constructor; [|constructor].
      apply upload_thread_ok.
  - (* Remove *)
    unfold form_button. destruct (editor st) as [|f|] eqn:E; try exact Hok.
    destruct (current_video st) as [r|]; [|exact Hok].
    unfold remove_video. destruct (heap st !! r) as [v|]; [|exact Hok].
    assert (Hf' : form_ok (FormShown f)) by exact Hf.
    destruct confirm;
      [|refine (conj Hh (conj _ (conj Hnd (conj Hv (conj Ht Hp))))); cbn; rewrite E; exact Hf'].
    cbn [videos log].
    destruct (list_remove _ (videos st)) as [l'|] eqn:El;
      [|refine (conj Hh (conj _ (conj Hnd (conj Hv (conj Ht Hp))))); cbn; rewrite E; exact Hf'].
    apply list_remove_sublist in El.
    unfold app_ok.
    cbn [after_callback heap videos editor threads progress_bar update_status].
    rewrite heap_show_default, videos_show_default, threads_show_default,
      progress_show_default.
    cbn [heap videos threads progress_bar refresh_video_list log set_videos].
    split; [exact Hh|]. split; [apply form_ok_show_default|].
    split; [exact (sublist_NoDup _ _ Hnd El)|].
    split; [|exact (conj Ht Hp)].
    apply Forall_forall. intros x Hx.
    apply (proj1 (Forall_forall _ _) Hv x). eapply elem_of_sublist; eauto.
  - (* Upload All *)
    unfold upload_all_videos. destruct (List.filter _ _) as [|p ps] eqn:Ep;
      [exact (conj Hh (conj Hf (conj Hnd (conj Hv (conj Ht Hp)))))|].
    refine (conj Hh (conj Hf (conj Hnd (conj Hv (conj _ Hp))))).
    cbn. apply Forall_app. split; [exact Ht|]. constructor; [|constructor].
    apply upload_all_thread_ok.
  - (* Save of the settings window *)
    destruct (create_settings_window st); [exact Hok|].
    destruct (save_settings_queue a b c writable st) as (E1 & E2 & E3 & E4).
    unfold app_ok. rewrite E1, E2, E3, E4, save_settings_progress. exact Hok.
  - apply step_thread_ok, Hok.
Qed.

Lemma fire_all_ok evs st : app_ok st -> app_ok (fire_all path_name path_stem evs st).
Proof.
  revert st. induction evs as [|ev evs IH]; intros st Hok; [exact Hok|].
  apply IH, fire_ok, Hok.
Qed.

Lemma startup_ok file st0 : startup file = Done st0 -> app_ok st0.
Proof.
  intros H. pose proof (load_config_progress _ _ _ H) as E5.
  apply load_config_queue in H as (E1 & E2 & E3 & E4).
  unfold app_ok. rewrite E1, E2, E3, E4, E5.
  refine (conj _ (conj I (conj _ (conj _ (conj _ _))))); try constructor.
  simpl. lia.
Qed.

End Invariant.

Section Reachable.

Variable path_name : string -> string.
Variable path_stem : string -> string.

(** X7.  In every state of a running program, whatever the configuration
    file and the sequence of events, each video has privacy ['public'] or
    ['private'], its platforms are a selection of ['youtube'] and
    ['instagram'] in that order, never ['tiktok'], and each of its tags is
    non-empty, trimmed and free of commas. *)
Theorem reachable_metadata_valid file st0 evs r v :
  startup file = Done st0 ->
  heap (fire_all path_name path_stem evs st0) !! r = Some v ->
  valid_privacy (privacy v)
  /\ valid_platforms (platforms v)
  /\ ("tiktok" ∉ platforms v)
  /\ Forall (fun t => is_clean_tag t = true) (tags v).
Proof.
  intros H0 Hv.
  destruct (fire_all_ok path_name path_stem evs st0 (startup_ok file st0 H0))
    as (Hh & _).
  destruct (Forall_lookup_1 _ _ _ _ Hh Hv) as (_ & Hp & Hl & Ht).
  repeat split; try assumption.
  unfold valid_platforms in Hl.
  repeat (apply elem_of_cons in Hl as [->|Hl]); [..|inversion Hl];
    intros H; repeat (apply elem_of_cons in H as [H|H]; [discriminate|]);
    inversion H.
Qed.

(** X8.  In every state of a running program the status of each video is
    one of ['pending'], ['uploading'], ['completed'] and ['failed'], whatever
    the interleaving of the worker threads and whichever of their calls
    raise. *)
Theorem reachable_status_valid file st0 evs r v :
  startup file = Done st0 ->
  heap (fire_all path_name path_stem evs st0) !! r = Some v ->
  valid_status (status v).
Proof.
  intros H0 Hv.
  destruct (fire_all_ok path_name path_stem evs st0 (startup_ok file st0 H0))
    as (Hh & _).
  apply (Forall_lookup_1 _ _ _ _ Hh Hv).
Qed.

(** X9.  In every state of a running program the queue holds each dict at
    most once, and every entry of the queue is a dict that was built by
    [add_videos]. *)
Theorem reachable_queue_distinct file st0 evs :
  startup file = Done st0 ->
  let st := fire_all path_name path_stem evs st0 in
  NoDup (videos st) /\ Forall (fun r => is_Some (heap st !! r)) (videos st).
Proof.
  intros H0 st.
  destruct (fire_all_ok path_name path_stem evs st0 (startup_ok file st0 H0))
    as (_ & _ & Hnd & Hv & _).
  split; [exact Hnd|]. eapply Forall_impl; [exact Hv|].
  intros r Hr. apply lookup_lt_is_Some. exact Hr.
Qed.

(** X15.  In every state of a running program the progress bar, which all
    upload threads share, shows a value between 0 and 100 hundredths, under
    every interleaving of the threads and whichever of their calls raise. *)
Theorem reachable_progress_bounded file st0 evs :
  startup file = Done st0 ->
  progress_bar (fire_all path_name path_stem evs st0) <= 100.
Proof.
  intros H0.
  destruct (fire_all_ok path_name path_stem evs st0 (startup_ok file st0 H0))
    as (_ & _ & _ & _ & _ & Hp).
  exact Hp.
Qed.

End Reachable.

Example example_state_heap : heap example_state = [example_video].
Proof. vm_compute. reflexivity. Qed.

Lemma reachable_metadata_valid_witness :
  startup FileAbsent = Done (log (EvOpen "gui_config.json" "r") initial_app)
  /\ heap example_state !! 0 = Some example_video
  /\ valid_privacy (privacy example_video)
  /\ valid_platforms (platforms example_video)
  /\ ("tiktok" ∉ platforms example_video)
  /\ Forall (fun t => is_clean_tag t = true) (tags example_video).
Proof.
  unfold example_state.
  assert (H : heap (fire_all PosixPath.name PosixPath.stem example_session
                             (log (EvOpen "gui_config.json" "r") initial_app)) !! 0
              = Some example_video)
    by (vm_compute; reflexivity).
  split; [reflexivity|]. split; [exact H|].
  exact (reachable_metadata_valid PosixPath.name PosixPath.stem FileAbsent
           (log (EvOpen "gui_config.json" "r") initial_app)
           example_session 0 example_video eq_refl H).
Defined.

Lemma reachable_status_valid_witness :
  startup FileAbsent = Done (log (EvOpen "gui_config.json" "r") initial_app)
  /\ heap example_state !! 0 = Some example_video
  /\ valid_status (status example_video).
Proof.
  unfold example_state.
  assert (H : heap (fire_all PosixPath.name PosixPath.stem example_session
                             (log (EvOpen "gui_config.json" "r") initial_app)) !! 0
              = Some example_video)
    by (vm_compute; reflexivity).
  split; [reflexivity|]. split; [exact H|].
  exact (reachable_status_valid PosixPath.name PosixPath.stem FileAbsent
           (log (EvOpen "gui_config.json" "r") initial_app)
           example_session 0 example_video eq_refl H).
Defined.

Lemma reachable_progress_bounded_witness :
  startup FileAbsent = Done (log (EvOpen "gui_config.json" "r") initial_app)
  /\ progress_bar example_state <= 100.
Proof.
  unfold example_state.
  split; [reflexivity|].
  exact (reachable_progress_bounded PosixPath.name PosixPath.stem FileAbsent
           (log (EvOpen "gui_config.json" "r") initial_app)
           example_session eq_refl).
Defined.

Lemma reachable_queue_distinct_witness :
  startup FileAbsent = Done (log (EvOpen "gui_config.json" "r") initial_app)
  /\ NoDup (videos example_state)
  /\ Forall (fun r => is_Some (heap example_state !! r)) (videos example_state).
Proof.
  unfold example_state.
  split; [reflexivity|].
  exact (reachable_queue_distinct PosixPath.name PosixPath.stem FileAbsent
           (log (EvOpen "gui_config.json" "r") initial_app)
           example_session eq_refl).
Defined.

(** ** Dicts are never freed and keep their file *)

Lemma same_file_refl v : same_file v v.
Proof. repeat split. Qed.

Lemma same_file_trans v1 v2 v3 : same_file v1 v2 -> same_file v2 v3 -> same_file v1 v3.
Proof. intros (A & B & C) (D & E & F). repeat split; congruence. Qed.

Lemma lookup_alter_same_file (g : Video -> Video) r0 (h : list Video) r v :
  (forall x, same_file x (g x)) ->
  h !! r = Some v ->
  exists v', alter g r0 h !! r = Some v' /\ same_file v v'.
Proof.
  intros Hg Hv. destruct (decide (r0 = r)) as [->|Hne].
  - exists (g v). rewrite list_lookup_alter_eq, Hv. split; [reflexivity | apply Hg].
  - exists v. rewrite list_lookup_alter_ne by exact Hne. split; [exact Hv | apply same_file_refl].
Qed.

Section Files.

Variable path_name : string -> string.
Variable path_stem : string -> string.

Lemma fire_keeps_file ev st r v :
  heap st !! r = Some v ->
  exists v', heap (fire path_name path_stem ev st) !! r = Some v' /\ same_file v v'.
Proof.
  intros Hv.
  assert (Hsame : exists v', heap st !! r = Some v' /\ same_file v v')
    by (exists v; split; [exact Hv | apply same_file_refl]).
  destruct ev as [files|i|s|s|s|p|private| | |confirm| |a b c writable|tid fault];
    cbn [fire].
  - rewrite heap_add_videos. exists v. split; [|apply same_file_refl].
    apply lookup_app_l_Some, Hv.
  - destruct (videos st !! i) as [r0|]; [|exact Hsame].
    unfold select_video. destruct (heap st !! r0); exact Hsame.
  - unfold on_form. destruct (editor st); exact Hsame.
  - unfold on_form. destruct (editor st); exact Hsame.
  - unfold on_form. destruct (editor st); exact Hsame.
  - unfold on_form. destruct (editor st); exact Hsame.
  - unfold on_form. destruct (editor st); exact Hsame.
  - unfold form_button. destruct (editor st) as [|f|] eqn:E; try exact Hsame.
    destruct (current_video st) as [r0|]; [|exact Hsame].
    rewrite (save_video_changes_shown st r0 f E).
    cbn [heap update_status refresh_video_list log set_heap].
    apply lookup_alter_same_file; [|exact Hv]. intros x. repeat split.
  - unfold form_button. destruct (editor st); try exact Hsame.
    destruct (current_video st); exact Hsame.
  - unfold form_button. destruct (editor st); try exact Hsame.
    destruct (current_video st) as [r0|]; [|exact Hsame].
    unfold remove_video. destruct (heap st !! r0); [|exact Hsame].
    destruct confirm; [|exact Hsame].
    destruct (list_remove _ _); [|exact Hsame].
    cbn [after_callback heap update_status]. rewrite heap_show_default. exact Hsame.
  - unfold upload_all_videos. destruct (List.filter _ _); exact Hsame.
  - destruct (create_settings_window st); [exact Hsame|].
    destruct (save_settings_queue a b c writable st) as (-> & _). exact Hsame.
  - unfold step_thread. destruct (threads st !! tid) as [t|]; [|exact Hsame].
    destruct (body t) as [|c rest]; [exact Hsame|].
    destruct (if can_raise c then fault else None); [exact Hsame|].
    cbv zeta. cbn [heap set_threads]. rewrite heap_exec_cmd.
    destruct c; try exact Hsame. simpl.
    apply lookup_alter_same_file; [|exact Hv]. intros x. repeat split.
Qed.

(** X10.  Whatever happens in a running program, a video dict stays
    where it is and keeps its id, its path and its name: no event frees a
    dict or rewrites one of these three fields. *)
Theorem fire_all_keeps_file evs st r v :
  heap st !! r = Some v ->
  exists v', heap (fire_all path_name path_stem evs st) !! r = Some v'
             /\ id v' = id v /\ path v' = path v /\ name v' = name v.
Proof.
  revert st v. induction evs as [|ev evs IH]; intros st v Hv.
  - exists v. repeat split. exact Hv.
  - destruct (fire_keeps_file ev st r v Hv) as (v1 & Hv1 & H1).
    destruct (IH _ _ Hv1) as (v2 & Hv2 & H2).
    exists v2. split; [exact Hv2|]. exact (same_file_trans _ _ _ H1 H2).
Qed.

End Files.

Lemma fire_all_keeps_file_witness :
  heap one_clip !! 0 = Some clip
  /\ exists v', heap (fire_all PosixPath.name PosixPath.stem
                               [GEdit 0; GTypeTitle "renamed"; GSave; GRemove true]
                               one_clip) !! 0 = Some v'
                /\ id v' = 1 /\ path v' = "/videos/clip.mp4" /\ name v' = "clip.mp4".
Proof.
  split; [reflexivity|].
  exact (fire_all_keeps_file PosixPath.name PosixPath.stem
           [GEdit 0; GTypeTitle "renamed"; GSave; GRemove true] one_clip 0 clip
           eq_refl).
Defined.

(** ** Opening the editor and saving at once *)

Lemma checked_platforms_form l :
  valid_platforms l ->
  checked_platforms (map (fun p => (p, str_in p l)) platform_ids) = l.
Proof.
  unfold valid_platforms. intros H.
  repeat (apply elem_of_cons in H as [->|H]); [..|inversion H]; reflexivity.
Qed.

(** Saving the form as [create_video_editor_form] filled it gives back the
    video. *)
Lemma video_update_create_form v :
  video_ok v -> video_update (create_video_editor_form v) v = v.
Proof.
  intros (_ & _ & Hl & Ht). destruct v as [i p n t d tg pl pr s].
  cbn [tags platforms] in Hl, Ht.
  unfold video_update, create_video_editor_form.
  cbn [title_entry desc_text tags_entry platform_vars privacy_var
       id path name title description tags platforms privacy status].
  rewrite (parse_tags_join tg Ht), (checked_platforms_form pl Hl). reflexivity.
Qed.

Section EditSave.

Variable path_name : string -> string.
Variable path_stem : string -> string.

(** X11.  In every state of a running program, "Edit" on an item of the
    list followed at once by "Save Changes" changes no video: the form shows
    every field in a way that the save reads back. *)
Theorem edit_then_save_changes_nothing file st0 evs i :
  startup file = Done st0 ->
  let st := fire_all path_name path_stem evs st0 in
  is_Some (videos st !! i) ->
  heap (fire path_name path_stem GSave (fire path_name path_stem (GEdit i) st))
  = heap st.
Proof.
  intros H0 st [r Hr].
  destruct (fire_all_ok path_name path_stem evs st0 (startup_ok file st0 H0))
    as (Hh & _ & _ & Hv & _). fold st in Hh, Hv.
  assert (Hlt : r < length (heap st)).
  { apply (proj1 (Forall_forall _ _) Hv r). eapply list_elem_of_lookup_2, Hr. }
  destruct (lookup_lt_is_Some_2 _ _ Hlt) as [v Hrv].
  cbn [fire]. rewrite Hr. unfold select_video. rewrite Hrv.
  unfold form_button. cbn [editor current_video update_status set_editor set_current_video].
  rewrite save_video_changes_shown with (f := create_video_editor_form v)
    by reflexivity.
  cbn [heap update_status refresh_video_list log set_heap set_editor set_current_video].
  apply list_eq. intros j. destruct (decide (r = j)) as [<-|Hne].
  - rewrite list_lookup_alter_eq, Hrv. simpl.
    rewrite (video_update_create_form v (Forall_lookup_1 _ _ _ _ Hh Hrv)). reflexivity.
  - apply list_lookup_alter_ne, Hne.
Qed.

End EditSave.

Lemma edit_then_save_changes_nothing_witness :
  startup FileAbsent = Done (log (EvOpen "gui_config.json" "r") initial_app)
  /\ is_Some (videos example_state !! 0)
  /\ heap (fire PosixPath.name PosixPath.stem GSave
             (fire PosixPath.name PosixPath.stem (GEdit 0) example_state))
     = heap example_state.
Proof.
  unfold example_state.
  assert (H : is_Some (videos (fire_all PosixPath.name PosixPath.stem example_session
                                 (log (EvOpen "gui_config.json" "r") initial_app)) !! 0)).
  { exists 0. vm_compute. reflexivity. }
  split; [reflexivity|]. split; [exact H|].
  exact (edit_then_save_changes_nothing PosixPath.name PosixPath.stem FileAbsent
           (log (EvOpen "gui_config.json" "r") initial_app) example_session 0
           eq_refl H).
Defined.

(** ** The buttons of the form act on a queued video *)





Section FormButtons.

Variable path_name : string -> string.
Variable path_stem : string -> string.





End FormButtons.


(** ** Upload All under any interleaving *)

Lemma ends_completed_plain cs rest :
  Forall (fun c => match c with CSetStatus _ _ => False | _ => True end) cs ->
  ends_completed rest -> ends_completed (cs ++ rest).
Proof.
  induction 1 as [|c cs Hc _ IH]; intros Hr; [exact Hr|].
  simpl. split; [|exact (IH Hr)]. destruct c; try exact I. contradiction.
Qed.

Lemma upload_body_ends_completed r : ends_completed (upload_body r).
Proof.
  unfold upload_body. cbn [app ends_completed]. split.
  - right. apply in_cons, in_cons, in_or_app. right. left. reflexivity.
  - split; [exact I|]. split; [exact I|].
    apply ends_completed_plain.
    + apply List.Forall_forall. intros c Hc.
      apply in_flat_map in Hc as (i & _ & Hc). simpl in Hc.
      destruct Hc as [<-|[<-|[<-|[]]]]; exact I.
    + cbn [ends_completed]. repeat split. left. reflexivity.
Qed.

Lemma upload_body_completes r : In (CSetStatus r "completed") (upload_body r).
Proof.
  unfold upload_body. apply in_or_app. right. apply in_or_app. right. left. reflexivity.
Qed.

Lemma upload_all_body_ends_completed l : ends_completed (upload_all_body l).
Proof. induction l as [|r l IH]; simpl; repeat split. exact IH. Qed.

Lemma upload_all_body_starts l r : r ∈ l -> In (CUploadSingle r) (upload_all_body l).
Proof.
  induction l as [|x l IH]; intros H; [inversion H|].
  apply elem_of_cons in H as [->|H]; simpl; [left; reflexivity | right; right; auto].
Qed.

(** A step that does not raise keeps every pending upload on its way. *)
Lemma step_keeps_uploads_pending n P tid st :
  n <= tid ->
  uploads_pending n P st -> uploads_pending n P (step_thread tid None st).
Proof.
  intros Hn [Hshape Hpend].
  destruct (threads st !! tid) as [[b h exc]|] eqn:Et;
    [|unfold step_thread; rewrite Et; split; assumption].
  destruct b as [|c rest];
    [unfold step_thread; rewrite Et; split; assumption|].
  rewrite (step_thread_quiet tid c rest h exc st Et).
  assert (Hlt : tid < length (threads st)) by (eapply lookup_lt_Some; eauto).
  destruct (exec_cmd_queue exc c st) as (_ & _ & Eth).
  assert (Hlk : drop n (threads st) !! (tid - n) = Some (mkThread (c :: rest) h exc))
    by (rewrite lookup_drop; replace (n + (tid - n)) with tid by lia; exact Et).
  pose proof (Forall_lookup_1 _ _ _ _ Hshape Hlk) as Hc.
  cbn [body ends_completed] in Hc. destruct Hc as [Hhead Hrest].
  set (t' := mkThread rest h exc).
  split.
  - cbn [threads set_threads]. rewrite Eth, drop_insert_ge by exact Hn.
    apply Forall_insert; [|exact Hrest].
    rewrite drop_app_le by lia. apply Forall_app. split; [exact Hshape|].
    destruct c; try (constructor; fail).
    constructor; [apply upload_body_ends_completed | constructor].
  - intros r Hr. destruct (Hpend r Hr) as [[v Hv] Hdisj].
    cbn [heap threads set_threads]. unfold status_of. cbn [heap set_threads].
    rewrite heap_exec_cmd, Eth.
    assert (Hhere : (<[tid := t']> (threads st ++
                       match c with CUploadSingle r0 => [upload_thread r0] | _ => [] end))
                    !! tid = Some t')
      by (apply list_lookup_insert_eq; rewrite length_app; lia).
    assert (Helse : forall j t, j <> tid -> threads st !! j = Some t ->
                      (<[tid := t']> (threads st ++
                         match c with CUploadSingle r0 => [upload_thread r0] | _ => [] end))
                      !! j = Some t).
    { intros j t Hj Hjt. rewrite list_lookup_insert_ne by congruence.
      apply lookup_app_l_Some, Hjt. }
    assert (Hmove : forall j t, n <= j -> threads st !! j = Some t -> will_complete r t ->
                      (j = tid -> will_complete r t') ->
                      exists j' t'', n <= j'
                        /\ (<[tid := t']> (threads st ++
                              match c with CUploadSingle r0 => [upload_thread r0] | _ => [] end))
                           !! j' = Some t''
                        /\ will_complete r t'').
    { intros j t Hj Hjt Hw Hsame. destruct (decide (j = tid)) as [->|Hne].
      - exists tid, t'. split; [exact Hn|]. split; [exact Hhere | exact (Hsame eq_refl)].
      - exists j, t. split; [exact Hj|]. split; [apply Helse; assumption | exact Hw]. }
    destruct c as [r0 s| | | | | | |r0]; cbn [cmd_heap].
    + (* video['status'] = s *)
      destruct (decide (r0 = r)) as [->|Hne].
      * split; [rewrite list_lookup_alter_eq, Hv; eexists; reflexivity|].
        rewrite list_lookup_alter_eq, Hv. simpl.
        destruct Hhead as [->|Hin]; [left; reflexivity|].
        right. exists tid, t'. split; [exact Hn|]. split; [exact Hhere|].
        left. exact Hin.
      * rewrite list_lookup_alter_ne by exact Hne.
        split; [rewrite Hv; eexists; reflexivity|].
        destruct Hdisj as [Hdone|(j & t & Hj & Hjt & Hw)]; [left; exact Hdone|].
        right. apply (Hmove j t Hj Hjt Hw). intros ->.
        rewrite Et in Hjt. injection Hjt as <-.
        destruct Hw as [[Heq|Hin]|[Heq|Hin]]; try discriminate;
          [congruence | left; exact Hin | right; exact Hin].
    + split; [rewrite Hv; eexists; reflexivity|].
      destruct Hdisj as [Hdone|(j & t & Hj & Hjt & Hw)]; [left; exact Hdone|].
      right. apply (Hmove j t Hj Hjt Hw). intros ->.
      rewrite Et in Hjt. injection Hjt as <-.
      destruct Hw as [[Heq|Hin]|[Heq|Hin]]; try discriminate;
        [left; exact Hin | right; exact Hin].
    + split; [rewrite Hv; eexists; reflexivity|].
      destruct Hdisj as [Hdone|(j & t & Hj & Hjt & Hw)]; [left; exact Hdone|].
      right. apply (Hmove j t Hj Hjt Hw). intros ->.
      rewrite Et in Hjt. injection Hjt as <-.
      destruct Hw as [[Heq|Hin]|[Heq|Hin]]; try discriminate;
        [left; exact Hin | right; exact Hin].
    + split; [rewrite Hv; eexists; reflexivity|].
      destruct Hdisj as [Hdone|(j & t & Hj & Hjt & Hw)]; [left; exact Hdone|].
      right. apply (Hmove j t Hj Hjt Hw). intros ->.
      rewrite Et in Hjt. injection Hjt as <-.
      destruct Hw as [[Heq|Hin]|[Heq|Hin]]; try discriminate;
        [left; exact Hin | right; exact Hin].
    + split; [rewrite Hv; eexists; reflexivity|].
      destruct Hdisj as [Hdone|(j & t & Hj & Hjt & Hw)]; [left; exact Hdone|].
      right. apply (Hmove j t Hj Hjt Hw). intros ->.
      rewrite Et in Hjt. injection Hjt as <-.
      destruct Hw as [[Heq|Hin]|[Heq|Hin]]; try discriminate;
        [left; exact Hin | right; exact Hin].
    + split; [rewrite Hv; eexists; reflexivity|].
      destruct Hdisj as [Hdone|(j & t & Hj & Hjt & Hw)]; [left; exact Hdone|].
      right. apply (Hmove j t Hj Hjt Hw). intros ->.
      rewrite Et in Hjt. injection Hjt as <-.
      destruct Hw as [[Heq|Hin]|[Heq|Hin]]; try discriminate;
        [left; exact Hin | right; exact Hin].
    + split; [rewrite Hv; eexists; reflexivity|].
      destruct Hdisj as [Hdone|(j & t & Hj & Hjt & Hw)]; [left; exact Hdone|].
      right. apply (Hmove j t Hj Hjt Hw). intros ->.
      rewrite Et in Hjt. injection Hjt as <-.
      destruct Hw as [[Heq|Hin]|[Heq|Hin]]; try discriminate;
        [left; exact Hin | right; exact Hin].
    + (* self.upload_single_video(video) *)
      split; [rewrite Hv; eexists; reflexivity|].
      destruct Hdisj as [Hdone|(j & t & Hj & Hjt & Hw)]; [left; exact Hdone|].
      right. destruct (decide (j = tid)) as [->|Hne];
        [|exists j, t; split; [exact Hj|]; split; [apply Helse; assumption | exact Hw]].
      rewrite Et in Hjt. injection Hjt as <-.
      destruct Hw as [[Heq|Hin]|[Heq|Hin]]; try discriminate.
      * exists tid, t'. split; [exact Hn|]. split; [exact Hhere | left; exact Hin].
      * injection Heq as ->.
        exists (length (threads st)), (upload_thread r).
        split; [lia|]. split.
        -- rewrite list_lookup_insert_ne by lia.
           rewrite lookup_app_r by lia. rewrite Nat.sub_diag. reflexivity.
        -- left. apply upload_body_completes.
      * exists tid, t'. split; [exact Hn|]. split; [exact Hhere | right; exact Hin].
Qed.

Lemma run_keeps_uploads_pending n P sched st :
  Forall (fun x => n <= fst x /\ snd x = None) sched ->
  uploads_pending n P st -> uploads_pending n P (run sched st).
Proof.
  intros Hs. revert st. induction Hs as [|[tid fault] sched [Hn Hf] _ IH]; intros st H.
  - exact H.
  - simpl in Hn, Hf. subst fault.
    change (run ((tid, None) :: sched) st) with (run sched (step_thread tid None st)).
    apply IH, step_keeps_uploads_pending; assumption.
Qed.

(** X13.  After "Upload All", in every interleaving of the loop and of
    the uploads it starts in which no call raises: once all these threads
    have run to their end, every job that was pending at the call is
    ['completed']. *)
Theorem upload_all_completes st sched r :
  Forall (fun x => length (threads st) <= fst x /\ snd x = None) sched ->
  r ∈ List.filter (is_pending st) (videos st) ->
  Forall (fun t => body t = [])
         (drop (length (threads st)) (threads (run sched (upload_all_videos st)))) ->
  status_of (run sched (upload_all_videos st)) r = Some "completed".
Proof.
  intros Hs Hr Hdone.
  set (pending_videos := List.filter (is_pending st) (videos st)) in *.
  assert (H0 : uploads_pending (length (threads st)) (fun x => x ∈ pending_videos)
                               (upload_all_videos st)).
  { rewrite (upload_all_videos_unfold st pending_videos eq_refl).
    destruct pending_videos as [|p ps] eqn:Ep; [inversion Hr|]. rewrite <- Ep in *.
    split.
    - cbn [threads log start_thread set_threads]. rewrite drop_app_length.
      constructor; [apply upload_all_body_ends_completed | constructor].
    - intros x Hx. split.
      + cbn [heap log start_thread set_threads].
        pose proof (pending_videos_pending st) as Hall.
        pose proof (proj1 (Forall_forall _ _) Hall x Hx) as Hp. cbv beta in Hp.
        unfold is_pending in Hp. destruct (heap st !! x); [eexists; reflexivity | discriminate].
      + right. exists (length (threads st)), (upload_all_thread pending_videos).
        split; [lia|]. split.
        * cbn [threads log start_thread set_threads].
          rewrite lookup_app_r by lia. rewrite Nat.sub_diag. reflexivity.
        * right. apply upload_all_body_starts, Hx. }
  destruct (run_keeps_uploads_pending _ _ sched _ Hs H0) as [_ Hend].
  destruct (Hend r Hr) as [_ [Hc|(j & t & Hj & Hjt & Hw)]]; [exact Hc|].
  exfalso.
  assert (Hb : body t = []).
  { apply (Forall_lookup_1 _ _ (j - length (threads st)) _ Hdone).
    rewrite lookup_drop. replace (length (threads st) + (j - length (threads st))) with j by lia.
    exact Hjt. }
  unfold will_complete in Hw. rewrite Hb in Hw. destruct Hw as [[]|[]].
Qed.

Lemma quiet_fault_free n tid k :
  n <= tid -> Forall (fun x : nat * option exn => n <= fst x /\ snd x = None) (quiet tid k).
Proof.
  intros H. apply List.Forall_forall. intros x Hx.
  apply repeat_spec in Hx. subst x. split; [exact H | reflexivity].
Qed.

Lemma upload_all_completes_witness :
  Forall (fun x => length (threads first_uploading) <= fst x /\ snd x = None)
         (quiet 1 1 ++ quiet 2 100 ++ quiet 1 1 ++ quiet 2 210)
  /\ 1 ∈ List.filter (is_pending first_uploading) (videos first_uploading)
  /\ status_of (run (quiet 1 1 ++ quiet 2 100 ++ quiet 1 1 ++ quiet 2 210)
                    (upload_all_videos first_uploading)) 1
     = Some "completed".
Proof.
  assert (H1 : Forall (fun x => length (threads first_uploading) <= fst x /\ snd x = None)
                      (quiet 1 1 ++ quiet 2 100 ++ quiet 1 1 ++ quiet 2 210)).
  { repeat (apply Forall_app; split); apply quiet_fault_free; vm_compute; lia. }
  assert (H2 : 1 ∈ List.filter (is_pending first_uploading) (videos first_uploading))
    by (vm_compute; constructor).
  split; [exact H1|]. split; [exact H2|].
  refine (upload_all_completes first_uploading
            (quiet 1 1 ++ quiet 2 100 ++ quiet 1 1 ++ quiet 2 210) 1 H1 H2 _).
  vm_compute. repeat constructor.
Defined.

(** ** An exception after the upload is complete *)

Lemma late_prefix_heap r k (h : list Video) :
  307 <= k -> k < 310 ->
  fold_left (fun hp c => cmd_heap c hp) (take k (upload_body r)) h
  = alter (set_status "completed") r (alter (set_status "uploading") r h).
Proof.
  intros H1 H2. assert (Hk : k = 307 \/ k = 308 \/ k = 309) by lia.
  destruct Hk as [-> | [-> | ->]]; reflexivity.
Qed.

Lemma late_call_can_raise r k c :
  307 <= k -> upload_body r !! k = Some c -> can_raise c = true.
Proof.
  intros H1 Hk.
  assert (H2 : k < 310)
    by (rewrite <- (upload_body_length r); eapply lookup_lt_Some; eauto).
  assert (Hc : k = 307 \/ k = 308 \/ k = 309) by lia.
  destruct Hc as [-> | [-> | ->]]; vm_compute in Hk; injection Hk as <-; reflexivity.
Qed.

Lemma cmd_heap_keeps_name cs (h : list Video) r v :
  h !! r = Some v ->
  exists v', fold_left (fun hp c => cmd_heap c hp) cs h !! r = Some v'
             /\ name v' = name v.
Proof.
  revert h v. induction cs as [|c cs IH]; intros h v Hv; [exists v; split; [exact Hv | reflexivity]|].
  simpl. destruct c; try (apply IH; exact Hv). simpl.
  destruct (decide (r0 = r)) as [->|Hne].
  - destruct (IH (alter (set_status s) r h) (set_status s v)) as (v' & Hv' & Hn).
    + rewrite list_lookup_alter_eq, Hv. reflexivity.
    + exists v'. split; [exact Hv' | exact Hn].
  - apply IH. rewrite list_lookup_alter_ne by exact Hne. exact Hv.
Qed.

(** What the handler of an upload does. *)
Lemma upload_handler_exec e r s v :
  heap s !! r = Some v ->
  exec_cmds (Some e) (upload_handler r) s
  = log (EvShowError "Upload Error" ("Failed to upload " ++ name v ++ ": ") e)
        (refresh_video_list (set_heap (alter (set_status "failed") r (heap s)) s)).
Proof.
  intros Hv. unfold exec_cmds, upload_handler. simpl.
  rewrite list_lookup_alter_eq, Hv. reflexivity.
Qed.

(** The state after the call number [k] of a guarded block raised and the
    handler of an upload ran. *)
Lemma guarded_block_raise tid r b k c e st :
  threads st !! tid = Some (mkThread b (Some (upload_handler r)) None) ->
  b !! k = Some c ->
  can_raise c = true ->
  let sk := exec_cmds None (take k b) st in
  let s2 := exec_cmds (Some e) (upload_handler r)
              (set_threads (<[tid := mkThread (upload_handler r) None (Some e)]> (threads sk)) sk) in
  run (quiet tid k ++ [(tid, Some e)] ++ quiet tid 3) st
  = set_threads (<[tid := mkThread [] None (Some e)]> (threads s2)) s2.
Proof.
  intros Ht Hk Hc sk s2.
  assert (Hlen : k < length b) by (eapply lookup_lt_Some; eauto).
  assert (Hsplit : b = take k b ++ c :: drop (S k) b)
    by (symmetry; apply take_drop_middle, Hk).
  assert (Htid : tid < length (threads st)) by (eapply lookup_lt_Some; eauto).
  rewrite !run_app.
  replace (quiet tid k) with (quiet tid (length (take k b)))
    by (rewrite length_take; f_equal; lia).
  rewrite (run_quiet tid (take k b) (c :: drop (S k) b)
             (Some (upload_handler r)) None st)
    by (rewrite <- Hsplit; exact Ht).
  fold sk.
  assert (Hsk : tid < length (threads sk))
    by (pose proof (threads_exec_cmds_length None (take k b) st); unfold sk; lia).
  change (run [(tid, Some e)] ?s) with (step_thread tid (Some e) s).
  rewrite (step_thread_raise tid c (drop (S k) b)
             (Some (upload_handler r)) None e)
    by (try exact Hc; cbn [threads set_threads];
        apply list_lookup_insert_eq; exact Hsk).
  cbn [threads set_threads raise_in handler]. rewrite list_insert_insert_eq.
  change (quiet tid 3) with (quiet tid (length (upload_handler r))).
  rewrite (run_quiet tid (upload_handler r) [] None (Some e))
    by (cbn [threads set_threads];
        rewrite list_lookup_insert_eq by exact Hsk; reflexivity).
  reflexivity.
Qed.

(** X14.  ['completed'] is not final.  When one of the three calls that
    follow [video['status'] = 'completed'] in the upload thread raises
    (the refresh of the list, the status bar, the reset of the progress
    bar), the handler runs: a job whose upload had completed ends as
    ['failed'], an error dialog is shown for it and the thread ends. *)
Theorem late_exception_fails_completed_upload tid r v k c e st :
  threads st !! tid = Some (upload_thread r) ->
  heap st !! r = Some v ->
  307 <= k ->
  upload_body r !! k = Some c ->
  let st' := run (quiet tid k ++ [(tid, Some e)] ++ quiet tid 3) st in
  status_of (run (quiet tid k) st) r = Some "completed"
  /\ status_of st' r = Some "failed"
  /\ last (trace st')
     = Some (EvShowError "Upload Error" ("Failed to upload " ++ name v ++ ": ") e)
  /\ body <$> threads st' !! tid = Some [].
Proof.
  intros Ht Hv Hk Hc st'.
  assert (Hlt : k < 310)
    by (rewrite <- (upload_body_length r); eapply lookup_lt_Some; eauto).
  assert (Hsplit : upload_body r = take k (upload_body r) ++ drop k (upload_body r))
    by (symmetry; apply take_drop).
  assert (Htid : tid < length (threads st)) by (eapply lookup_lt_Some; eauto).
  split.
  - replace (quiet tid k) with (quiet tid (length (take k (upload_body r))))
      by (rewrite length_take, upload_body_length; f_equal; lia).
    rewrite (run_quiet tid (take k (upload_body r)) (drop k (upload_body r))
               (Some (upload_handler r)) None st)
      by (rewrite <- Hsplit; exact Ht).
    unfold status_of. cbn [heap set_threads].
    rewrite heap_exec_cmds, (late_prefix_heap r k _ Hk Hlt).
    rewrite !list_lookup_alter_eq, Hv. reflexivity.
  - subst st'.
    rewrite (guarded_block_raise tid r (upload_body r) k c e st Ht Hc
               (late_call_can_raise r k c Hk Hc)).
    set (sk := exec_cmds None (take k (upload_body r)) st).
    assert (Hsk : tid < length (threads sk))
      by (pose proof (threads_exec_cmds_length None (take k (upload_body r)) st);
          unfold sk; lia).
    assert (Hhk : heap sk !! r = Some (set_status "completed" v)).
    { unfold sk. rewrite heap_exec_cmds, (late_prefix_heap r k _ Hk Hlt).
      rewrite !list_lookup_alter_eq, Hv. reflexivity. }
    rewrite (upload_handler_exec e r _ (set_status "completed" v))
      by exact Hhk.
    unfold status_of.
    cbn [heap threads trace set_threads set_heap log refresh_video_list name set_status].
    rewrite list_lookup_alter_eq, Hhk.
    split; [reflexivity|]. split.
    + rewrite last_snoc. reflexivity.
    + rewrite list_lookup_insert_eq by (rewrite length_insert; exact Hsk).
      reflexivity.
Qed.

Lemma late_exception_fails_completed_upload_witness :
  threads (upload_single_video 0 one_clip) !! 0 = Some (upload_thread 0)
  /\ upload_body 0 !! 308 = Some (CUpdateStatus "Completed: " 0)
  /\ status_of (run (quiet 0 308) (upload_single_video 0 one_clip)) 0 = Some "completed"
  /\ status_of (run (quiet 0 308 ++ [(0, Some TclError)] ++ quiet 0 3)
                    (upload_single_video 0 one_clip)) 0 = Some "failed".
Proof.
  assert (H308 : 307 <= 308) by lia.
  pose proof (late_exception_fails_completed_upload 0 0 clip 308
                (CUpdateStatus "Completed: " 0) TclError
                (upload_single_video 0 one_clip) eq_refl eq_refl H308 eq_refl) as H.
  cbv zeta in H.
  split; [reflexivity|]. split; [reflexivity|]. split; apply H.
Defined.

(** ** Ids without a removal *)

Lemma fmap_id_alter (g : Video -> Video) r (h : list Video) :
  (forall x, id (g x) = id x) -> id <$> alter g r h = id <$> h.
Proof.
  intros Hg. revert r. induction h as [|x h IH]; intros [|r]; try reflexivity.
  - cbn. rewrite Hg. reflexivity.
  - cbn. f_equal. apply IH.
Qed.

Lemma ids_in_order_ext st st' :
  videos st' = videos st -> id <$> heap st' = id <$> heap st ->
  ids_in_order st -> ids_in_order st'.
Proof.
  intros Ev Eh [Hq Hi]. unfold ids_in_order.
  assert (El : length (heap st') = length (heap st))
    by (rewrite <- (length_fmap id (heap st')), Eh, length_fmap; reflexivity).
  rewrite Ev, Eh, El. split; assumption.
Qed.

Section Ids.

Variable path_name : string -> string.
Variable path_stem : string -> string.

Lemma add_videos_in_order files st :
  ids_in_order st -> ids_in_order (add_videos path_name path_stem files st).
Proof.
  intros [Hq Hi]. unfold ids_in_order.
  assert (Hids : id <$> imap (fun i f => new_video path_name path_stem
                                          (length (videos st) + i) f) files
                 = seq (length (videos st) + 1) (length files)).
  { pose proof (add_videos_ids path_name path_stem files st) as H.
    rewrite heap_add_videos, drop_app_length in H. exact H. }
  rewrite videos_add_videos, heap_add_videos, length_app, length_imap. split.
  - rewrite Hq at 1. rewrite seq_app. reflexivity.
  - rewrite fmap_app, Hids, Hi, seq_app. f_equal. f_equal.
    rewrite Hq, length_seq. lia.
Qed.

Lemma fire_in_order ev st :
  confirmed_removal ev = false ->
  ids_in_order st -> ids_in_order (fire path_name path_stem ev st).
Proof.
  intros Hev Hl.
  destruct ev as [files|i|s|s|s|p|private| | |confirm| |a b c writable|tid fault];
    cbn [fire].
  - apply add_videos_in_order, Hl.
  - destruct (videos st !! i) as [r0|]; [|exact Hl].
    unfold select_video. destruct (heap st !! r0); exact Hl.
  - unfold on_form. destruct (editor st); exact Hl.
  - unfold on_form. destruct (editor st); exact Hl.
  - unfold on_form. destruct (editor st); exact Hl.
  - unfold on_form. destruct (editor st); exact Hl.
  - unfold on_form. destruct (editor st); exact Hl.
  - unfold form_button. destruct (editor st) as [|f|] eqn:E; try exact Hl.
    destruct (current_video st) as [r0|]; [|exact Hl].
    rewrite (save_video_changes_shown st r0 f E).
    apply (ids_in_order_ext st); [reflexivity| |exact Hl].
    cbn [heap update_status refresh_video_list log set_heap].
    apply fmap_id_alter. intros x. reflexivity.
  - unfold form_button. destruct (editor st); try exact Hl.
    destruct (current_video st); exact Hl.
  - destruct confirm; [discriminate Hev|].
    unfold form_button. destruct (editor st); try exact Hl.
    destruct (current_video st) as [r0|]; [|exact Hl].
    unfold remove_video. destruct (heap st !! r0); exact Hl.
  - unfold upload_all_videos. destruct (List.filter _ _); exact Hl.
  - destruct (create_settings_window st); [exact Hl|].
    destruct (save_settings_queue a b c writable st) as (E1 & E2 & _).
    apply (ids_in_order_ext st); [exact E2 | rewrite E1; reflexivity | exact Hl].
  - unfold step_thread. destruct (threads st !! tid) as [t|]; [|exact Hl].
    destruct (body t) as [|c rest]; [exact Hl|].
    destruct (if can_raise c then fault else None); [exact Hl|].
    cbv zeta. apply (ids_in_order_ext st); [| |exact Hl].
    + cbn [videos set_threads]. apply exec_cmd_queue.
    + cbn [heap set_threads]. rewrite heap_exec_cmd.
      destruct c; try reflexivity. simpl.
      apply fmap_id_alter. intros x. reflexivity.
Qed.

Lemma fire_all_in_order evs st :
  existsb confirmed_removal evs = false ->
  ids_in_order st -> ids_in_order (fire_all path_name path_stem evs st).
Proof.
  revert st. induction evs as [|ev evs IH]; intros st Hev Hl; [exact Hl|].
  simpl in Hev. apply orb_false_elim in Hev as [H1 H2].
  apply IH; [exact H2|]. apply fire_in_order; assumption.
Qed.

Lemma startup_in_order file st0 : startup file = Done st0 -> ids_in_order st0.
Proof.
  intros H. apply load_config_queue in H as (E1 & E2 & _).
  unfold ids_in_order. rewrite E1, E2. split; reflexivity.
Qed.

(** X16.  As long as no removal has been confirmed, the ids number the
    queue: in every state of a running program the video at position [i] of
    the queue (counted from 0) carries the id [i + 1], whatever else was
    clicked and however the worker threads ran; so the ids of the queue are
    distinct. *)
Theorem ids_number_the_queue file st0 evs :
  startup file = Done st0 ->
  existsb confirmed_removal evs = false ->
  let st := fire_all path_name path_stem evs st0 in
  (forall i r v, videos st !! i = Some r -> heap st !! r = Some v -> id v = i + 1)
  /\ (forall i j r1 r2 v1 v2,
        videos st !! i = Some r1 -> heap st !! r1 = Some v1 ->
        videos st !! j = Some r2 -> heap st !! r2 = Some v2 ->
        id v1 = id v2 -> i = j).
Proof.
  intros H0 Hev st.
  destruct (fire_all_in_order evs st0 Hev (startup_in_order file st0 H0))
    as [Hq Hi]. fold st in Hq, Hi.
  assert (Hid : forall i r v,
             videos st !! i = Some r -> heap st !! r = Some v -> id v = i + 1).
  { intros i r v Hr Hv. rewrite Hq in Hr. apply lookup_seq in Hr as [-> _].
    assert (Hs : (id <$> heap st) !! (0 + i) = Some (id v))
      by (rewrite list_lookup_fmap, Hv; reflexivity).
    rewrite Hi in Hs. apply lookup_seq in Hs as [-> _]. lia. }
  split; [exact Hid|].
  intros i j r1 r2 v1 v2 A1 B1 A2 B2 E.
  pose proof (Hid _ _ _ A1 B1). pose proof (Hid _ _ _ A2 B2). lia.
Qed.

End Ids.

Lemma ids_number_the_queue_witness :
  startup FileAbsent = Done (log (EvOpen "gui_config.json" "r") initial_app)
  /\ existsb confirmed_removal example_session = false
  /\ videos example_state !! 0 = Some 0
  /\ heap example_state !! 0 = Some example_video
  /\ id example_video = 0 + 1.
Proof.
  unfold example_state.
  assert (Hq : videos (fire_all PosixPath.name PosixPath.stem example_session
                         (log (EvOpen "gui_config.json" "r") initial_app)) !! 0
               = Some 0)
    by (vm_compute; reflexivity).
  assert (Hh : heap (fire_all PosixPath.name PosixPath.stem example_session
                       (log (EvOpen "gui_config.json" "r") initial_app)) !! 0
               = Some example_video)
    by (vm_compute; reflexivity).
  split; [reflexivity|]. split; [reflexivity|].
  split; [exact Hq|]. split; [exact Hh|].
  exact (proj1 (ids_number_the_queue PosixPath.name PosixPath.stem FileAbsent
                  (log (EvOpen "gui_config.json" "r") initial_app)
                  example_session eq_refl eq_refl) 0 0 example_video Hq Hh).
Defined.

(** ** C1: where a status changes *)

Lemma drop_cons_inv {A} (l : list A) k c rest :
  drop k l = c :: rest -> l !! k = Some c /\ drop (S k) l = rest.
Proof.
  intros H. assert (Hk : l !! k = Some c).
  { rewrite <- (Nat.add_0_r k), <- lookup_drop, H. reflexivity. }
  split; [exact Hk|]. rewrite (drop_S _ _ _ Hk) in H.
  injection H as H. exact H.
Qed.

Lemma drop_head_In {A} (l : list A) k c rest : drop k l = c :: rest -> In c l.
Proof.
  intros H. apply drop_cons_inv in H as [H _].
  apply list_elem_of_In. eapply list_elem_of_lookup_2. exact H.
Qed.

(** The statuses that the threads write. *)
Lemma upload_body_writes r r0 s :
  In (CSetStatus r0 s) (upload_body r) ->
  r0 = r /\ (s = "uploading" \/ s = "completed").
Proof.
  unfold upload_body. intros H.
  apply in_app_or in H as [H|H].
  - destruct H as [H|[H|[H|[]]]]; try discriminate.
    injection H as -> <-. auto.
  - apply in_app_or in H as [H|H].
    + apply in_flat_map in H as (i & _ & H).
      destruct H as [H|[H|[H|[]]]]; discriminate.
    + destruct H as [H|[H|[H|[H|[]]]]]; try discriminate.
      injection H as -> <-. auto.
Qed.

Lemma upload_handler_writes r r0 s :
  In (CSetStatus r0 s) (upload_handler r) -> r0 = r /\ s = "failed".
Proof.
  intros H. destruct H as [H|[H|[H|[]]]]; try discriminate.
  injection H as -> <-. auto.
Qed.

Lemma upload_all_body_writes l r0 s : ~ In (CSetStatus r0 s) (upload_all_body l).
Proof.
  unfold upload_all_body. intros H. apply in_flat_map in H as (r & _ & H).
  destruct H as [H|[H|[]]]; discriminate.
Qed.

(** A thread whose next call writes a status is an upload thread of that
    video, and the status is not ['pending']. *)
Lemma known_thread_writes t r0 s rest :
  known_thread t ->
  body t = CSetStatus r0 s :: rest ->
  runs_upload r0 t /\ s ∈ ["uploading"; "completed"; "failed"].
Proof.
  intros [[r [(k & Hb & Hh)|(k & Hb & Hh)]]|(l & k & Hb & Hh)] Hc;
    rewrite Hb in Hc; pose proof (drop_head_In _ _ _ _ Hc) as Hin.
  - apply upload_body_writes in Hin as [-> Hs]. split.
    + left. exists k. split; assumption.
    + destruct Hs as [-> | ->]; repeat constructor.
  - apply upload_handler_writes in Hin as [-> ->]. split.
    + right. exists k. split; assumption.
    + repeat constructor.
  - exfalso. exact (upload_all_body_writes _ _ _ Hin).
Qed.

Lemma known_thread_tail t c rest :
  known_thread t -> body t = c :: rest ->
  known_thread (mkThread rest (handler t) (caught t)).
Proof.
  intros [[r [(k & Hb & Hh)|(k & Hb & Hh)]]|(l & k & Hb & Hh)] Hc;
    rewrite Hb in Hc; apply drop_cons_inv in Hc as [_ Hc].
  - left. exists r. left. exists (S k). split; [symmetry; exact Hc | exact Hh].
  - left. exists r. right. exists (S k). split; [symmetry; exact Hc | exact Hh].
  - right. exists l, (S k). split; [symmetry; exact Hc | exact Hh].
Qed.

Lemma known_thread_raise e t : known_thread t -> known_thread (raise_in e t).
Proof.
  unfold raise_in.
  intros [[r [(k & Hb & Hh)|(k & Hb & Hh)]]|(l & k & Hb & Hh)]; rewrite Hh.
  - left. exists r. right. exists 0. split; reflexivity.
  - left. exists r. right. exists (length (upload_handler r)).
    split; [symmetry; apply drop_all | reflexivity].
  - right. exists l, (length (upload_all_body l)).
    split; [symmetry; apply drop_all | reflexivity].
Qed.

Lemma known_upload_thread r : known_thread (upload_thread r).
Proof. left. exists r. left. exists 0. split; reflexivity. Qed.

Lemma known_upload_all_thread l : known_thread (upload_all_thread l).
Proof. right. exists l, 0. split; reflexivity. Qed.

Lemma step_threads_known tid fault st :
  threads_known st -> threads_known (step_thread tid fault st).
Proof.
  intros H. unfold step_thread.
  destruct (threads st !! tid) as [t|] eqn:Et; [|exact H].
  destruct (body t) as [|c rest] eqn:Eb; [exact H|].
  pose proof (Forall_lookup_1 _ _ _ _ H Et) as Hk.
  destruct (if can_raise c then fault else None) as [e|].
  - unfold threads_known. cbn [threads set_threads].
    apply Forall_insert; [exact H | apply known_thread_raise, Hk].
  - cbv zeta. unfold threads_known. cbn [threads set_threads].
    apply Forall_insert; [|exact (known_thread_tail t c rest Hk Eb)].
    rewrite (proj2 (proj2 (exec_cmd_queue (caught t) c st))).
    apply Forall_app. split; [exact H|].
    destruct c; constructor; [apply known_upload_thread | constructor].
Qed.

(** A step of the loop of "Upload All" writes to no dict. *)
Lemma upload_all_step_heap tid fault t st :
  threads st !! tid = Some t -> runs_upload_all t ->
  heap (step_thread tid fault st) = heap st.
Proof.
  intros Et (l & k & Hb & _). unfold step_thread. rewrite Et.
  destruct (body t) as [|c rest] eqn:Eb; [reflexivity|].
  destruct (if can_raise c then fault else None); [reflexivity|].
  cbv zeta. cbn [heap set_threads]. rewrite heap_exec_cmd.
  destruct c; try reflexivity.
  exfalso. symmetry in Hb.
  exact (upload_all_body_writes _ _ _ (drop_head_In _ _ _ _ Hb)).
Qed.

Lemma status_alter_keeps (g : Video -> Video) r0 (h : list Video) r :
  (forall x, status (g x) = status x) ->
  status <$> alter g r0 h !! r = status <$> h !! r.
Proof.
  intros Hg. destruct (decide (r0 = r)) as [->|Hne].
  - rewrite list_lookup_alter_eq. destruct (h !! r); simpl; [rewrite Hg|]; reflexivity.
  - rewrite list_lookup_alter_ne by exact Hne. reflexivity.
Qed.

Section StatusChanges.

Variable path_name : string -> string.
Variable path_stem : string -> string.

Lemma fire_threads_known ev st :
  threads_known st -> threads_known (fire path_name path_stem ev st).
Proof.
  intros H.
  destruct ev as [files|i|s|s|s|p|private| | |confirm| |a b c writable|tid fault];
    cbn [fire].
  - unfold threads_known, add_videos.
    cbn [threads update_status refresh_video_list log].
    rewrite (proj2 (add_loop_panel path_name path_stem files st)). exact H.
  - destruct (videos st !! i) as [r0|]; [|exact H].
    unfold select_video. destruct (heap st !! r0); exact H.
  - unfold on_form. destruct (editor st); exact H.
  - unfold on_form. destruct (editor st); exact H.
  - unfold on_form. destruct (editor st); exact H.
  - unfold on_form. destruct (editor st); exact H.
  - unfold on_form. destruct (editor st); exact H.
  - unfold form_button. destruct (editor st) as [|f|] eqn:E; try exact H.
    destruct (current_video st) as [r0|]; [|exact H].
    rewrite (save_video_changes_shown st r0 f E). exact H.
  - unfold form_button. destruct (editor st); try exact H.
    destruct (current_video st) as [r0|]; [|exact H].
    unfold threads_known, upload_single_video, start_thread.
    cbn [threads log set_threads]. apply Forall_app. split; [exact H|].
    constructor; [apply known_upload_thread | constructor].
  - unfold form_button. destruct (editor st); try exact H.
    destruct (current_video st) as [r0|]; [|exact H].
    unfold remove_video. destruct (heap st !! r0); [|exact H].
    destruct confirm; [|exact H].
    destruct (list_remove _ _); [|exact H].
    unfold threads_known. cbn [after_callback threads update_status].
    rewrite threads_show_default. exact H.
  - unfold upload_all_videos. destruct (List.filter _ _); [exact H|].
    unfold threads_known, start_thread. cbn [threads log set_threads].
    apply Forall_app. split; [exact H|].
    constructor; [apply known_upload_all_thread | constructor].
  - destruct (create_settings_window st); [exact H|].
    destruct (save_settings_queue a b c writable st) as (_ & _ & _ & E4).
    unfold threads_known. rewrite E4. exact H.
  - apply step_threads_known, H.
Qed.

Lemma fire_all_threads_known evs st :
  threads_known st -> threads_known (fire_all path_name path_stem evs st).
Proof.
  revert st. induction evs as [|ev evs IH]; intros st H; [exact H|].
  apply IH, fire_threads_known, H.
Qed.

Lemma startup_threads_known file st0 : startup file = Done st0 -> threads_known st0.
Proof.
  intros H. apply load_config_queue in H as (_ & _ & _ & E4).
  unfold threads_known. rewrite E4. constructor.
Qed.

(** An event leaves a status as it is, unless it is a step of an upload
    thread of the video whose next call writes the status. *)
Lemma fire_status ev st r s :
  threads_known st ->
  status_of st r = Some s ->
  status_of (fire path_name path_stem ev st) r = Some s
  \/ exists tid fault t rest s',
       ev = GStep tid fault
       /\ threads st !! tid = Some t
       /\ runs_upload r t
       /\ body t = CSetStatus r s' :: rest
       /\ s' ∈ ["uploading"; "completed"; "failed"]
       /\ status_of (fire path_name path_stem ev st) r = Some s'.
Proof.
  intros Hk Hs. unfold status_of in *.
  destruct ev as [files|i|s0|s0|s0|p|private| | |confirm| |a b c writable|tid fault];
    cbn [fire].
  - left. rewrite heap_add_videos.
    destruct (heap st !! r) as [v|] eqn:Ev; [|discriminate].
    rewrite (lookup_app_l_Some _ _ _ _ Ev). exact Hs.
  - left. destruct (videos st !! i) as [r0|]; [|exact Hs].
    unfold select_video. destruct (heap st !! r0); exact Hs.
  - left. unfold on_form. destruct (editor st); exact Hs.
  - left. unfold on_form. destruct (editor st); exact Hs.
  - left. unfold on_form. destruct (editor st); exact Hs.
  - left. unfold on_form. destruct (editor st); exact Hs.
  - left. unfold on_form. destruct (editor st); exact Hs.
  - left. unfold form_button. destruct (editor st) as [|f|] eqn:E; try exact Hs.
    destruct (current_video st) as [r0|]; [|exact Hs].
    rewrite (save_video_changes_shown st r0 f E).
    cbn [heap update_status refresh_video_list log set_heap].
    rewrite status_alter_keeps by reflexivity. exact Hs.
  - left. unfold form_button. destruct (editor st); try exact Hs.
    destruct (current_video st); exact Hs.
  - left. unfold form_button. destruct (editor st); try exact Hs.
    destruct (current_video st) as [r0|]; [|exact Hs].
    unfold remove_video. destruct (heap st !! r0); [|exact Hs].
    destruct confirm; [|exact Hs].
    destruct (list_remove _ _); [|exact Hs].
    cbn [after_callback heap update_status]. rewrite heap_show_default. exact Hs.
  - left. unfold upload_all_videos. destruct (List.filter _ _); exact Hs.
  - left. destruct (create_settings_window st); [exact Hs|].
    destruct (save_settings_queue a b c writable st) as (-> & _). exact Hs.
  - unfold step_thread. destruct (threads st !! tid) as [t|] eqn:Et; [|left; exact Hs].
    destruct (body t) as [|c rest] eqn:Eb; [left; exact Hs|].
    destruct (if can_raise c then fault else None) eqn:Ef; [left; exact Hs|].
    cbv zeta. cbn [heap set_threads]. rewrite heap_exec_cmd.
    destruct c as [r0 s'| | | | | | |]; try (left; exact Hs).
    cbn [cmd_heap]. destruct (decide (r0 = r)) as [->|Hne].
    + right. exists tid, fault, t, rest, s'.
      destruct (known_thread_writes t r s' rest
                  (Forall_lookup_1 _ _ _ _ Hk Et) Eb) as [Hr Hin].
      split; [reflexivity|]. split; [exact Et|]. split; [exact Hr|].
      split; [exact Eb|]. split; [exact Hin|].
      rewrite list_lookup_alter_eq.
      destruct (heap st !! r); [reflexivity | discriminate].
    + left. rewrite list_lookup_alter_ne by exact Hne. exact Hs.
Qed.

(** A status that is not ['pending'] never becomes ['pending']. *)
Lemma fire_all_not_pending evs st r s :
  threads_known st ->
  status_of st r = Some s ->
  s <> "pending" ->
  status_of (fire_all path_name path_stem evs st) r <> Some "pending".
Proof.
  revert st s. induction evs as [|ev evs IH]; intros st s Hk Hs Hne.
  - simpl. rewrite Hs. congruence.
  - change (fire_all path_name path_stem (ev :: evs) st)
      with (fire_all path_name path_stem evs (fire path_name path_stem ev st)).
    destruct (fire_status ev st r s Hk Hs)
      as [H|(tid & fault & t & rest & s' & _ & _ & _ & _ & Hin & H)].
    + exact (IH _ s (fire_threads_known ev st Hk) H Hne).
    + apply (IH _ s' (fire_threads_known ev st Hk) H).
      repeat (apply elem_of_cons in Hin as [->|Hin]; [discriminate|]).
      inversion Hin.
Qed.

(** C1, amended.  In a running program, for a job of status [s]:
    no callback of the main thread (add, select, edit, save, remove,
    upload now, upload all, the settings) changes the status; an event
    changes it only when it is a step of an upload thread of that job
    whose next call is [video['status'] = s'], and [s'] is ['uploading'],
    ['completed'] or ['failed']; a step of the loop of "Upload All" changes
    no status; so a job that has left ['pending'] never returns to it.
    Starting an upload does not look at the status: the first step of the
    thread that [upload_single_video] starts writes ['uploading'] whatever
    the status was, ['completed'] and ['failed'] included. *)
Theorem status_changes_only_in_upload_threads file st0 evs r s :
  startup file = Done st0 ->
  let st := fire_all path_name path_stem evs st0 in
  status_of st r = Some s ->
  (forall o, status_of (exec_op path_name path_stem o st) r = Some s)
  /\ (forall ev,
        status_of (fire path_name path_stem ev st) r <> Some s ->
        exists tid fault t rest s',
          ev = GStep tid fault
          /\ threads st !! tid = Some t
          /\ runs_upload r t
          /\ body t = CSetStatus r s' :: rest
          /\ s' ∈ ["uploading"; "completed"; "failed"]
          /\ status_of (fire path_name path_stem ev st) r = Some s')
  /\ (forall tid fault t,
        threads st !! tid = Some t -> runs_upload_all t ->
        status_of (step_thread tid fault st) r = Some s)
  /\ (s <> "pending" ->
      forall evs', status_of (fire_all path_name path_stem evs' st) r <> Some "pending")
  /\ (forall fault,
        status_of (step_thread (length (threads st)) fault (upload_single_video r st)) r
        = Some "uploading").
Proof.
  intros H0 st Hs.
  assert (Hk : threads_known st)
    by (apply fire_all_threads_known, (startup_threads_known file), H0).
  assert (Hv : exists v, heap st !! r = Some v /\ status v = s).
  { unfold status_of in Hs. destruct (heap st !! r) as [v|]; [|discriminate].
    exists v. split; [reflexivity|]. injection Hs as Hs. exact Hs. }
  destruct Hv as (v & Hv & Hsv).
  split; [|split; [|split; [|split]]].
  - intros o. rewrite (exec_op_status path_name path_stem o st r v Hv), Hsv.
    reflexivity.
  - intros ev Hne. destruct (fire_status ev st r s Hk Hs) as [H|H];
      [contradiction | exact H].
  - intros tid fault t Et Ht. unfold status_of.
    rewrite (upload_all_step_heap tid fault t st Et Ht). exact Hs.
  - intros Hne evs'. exact (fire_all_not_pending evs' st r s Hk Hs Hne).
  - intros fault. unfold status_of.
    rewrite (upload_thread_first_step (length (threads st)) r v fault
               (upload_single_video r st)).
    + rewrite list_lookup_insert_eq by (eapply lookup_lt_Some; eauto). reflexivity.
    + unfold upload_single_video, start_thread. cbn [threads log set_threads].
      rewrite lookup_app_r by lia. rewrite Nat.sub_diag. reflexivity.
    + exact Hv.
Qed.

End StatusChanges.

Lemma status_changes_only_in_upload_threads_witness :
  startup FileAbsent = Done (log (EvOpen "gui_config.json" "r") initial_app)
  /\ status_of example_state 0 = Some "uploading"
  /\ (forall o, status_of (exec_op PosixPath.name PosixPath.stem o example_state) 0
                = Some "uploading")
  /\ (forall evs',
        status_of (fire_all PosixPath.name PosixPath.stem evs' example_state) 0
        <> Some "pending").
Proof.
  unfold example_state.
  assert (Hs : status_of (fire_all PosixPath.name PosixPath.stem example_session
                            (log (EvOpen "gui_config.json" "r") initial_app)) 0
               = Some "uploading")
    by (vm_compute; reflexivity).
  destruct (status_changes_only_in_upload_threads PosixPath.name PosixPath.stem
              FileAbsent (log (EvOpen "gui_config.json" "r") initial_app)
              example_session 0 "uploading" eq_refl Hs)
    as (H1 & _ & _ & H4 & _).
  split; [reflexivity|]. split; [exact Hs|]. split; [exact H1|].
  apply H4. discriminate.
Defined.
